(** * Verification of [utils/renderer_utils.py]

    The module wraps the pytorch3d renderer in three [nn.Module] classes,
    [Mesh_Renderer], [Point_Renderer] and [Texture_Renderer].  The wrappers
    are embedded as Rocq programs: a constructor or a call returns a value
    or raises, and a call runs in a state made of the instance, the store
    of camera objects and the state of torch's random generator.  The
    operations of torch and pytorch3d the wrappers call are the fields of
    the class [Library] and stay uninterpreted; what the proofs rely on
    from them is the class [LibrarySpec].  The module [Double] is a small
    executable instance of the library on which the wrappers are run. *)

From Stdlib Require Import QArith ZArith Lia Lqa.
From stdpp Require Import gmap strings list fin_maps.

Local Open Scope Q_scope.
Local Open Scope nat_scope.
Local Open Scope stdpp_scope.

(** ** Python exceptions and results *)

Inductive exn :=
  | NotImplementedError (msg : string)
  | AttributeError (msg : string)
  | RuntimeError (msg : string)
  | KeyError (msg : string)
  | IndexError (msg : string)
  | TypeError (msg : string)
  | LibraryError (msg : string).

Inductive result (A : Type) :=
  | Ok (a : A)
  | Raise (e : exn).
Arguments Ok {A} a.
Arguments Raise {A} e.


(** ** Programs over a mutable state

    A Python call mutates its state in place, so the state reached when an
    exception is raised is kept. *)

Definition prog (St A : Type) : Type := St → result A * St.

Global Instance prog_ret {St} : MRet (prog St) := λ A a s, (Ok a, s).
Global Instance prog_bind {St} : MBind (prog St) := λ A B f m s,
  match m s with
  | (Ok a, s') => f a s'
  | (Raise e, s') => (Raise e, s')
  end.

(** A computation that does not touch the state. *)
Definition lift_result {St A} (r : result A) : prog St A := λ s, (r, s).

(** ** Tensors

    A float is a rational.  A rank-4 tensor is its shape with its element
    function; [permute] and slicing are views, as in torch. *)

Record tensor4 (A : Type) := Tensor4 {
  dims : nat * nat * nat * nat;
  elt : nat → nat → nat → nat → A
}.
Arguments Tensor4 {A} dims elt.
Arguments dims {A} t.
Arguments elt {A} t i j k l.

Definition dim0 {A} (t : tensor4 A) : nat := (dims t).1.1.1.
Definition dim1 {A} (t : tensor4 A) : nat := (dims t).1.1.2.
Definition dim2 {A} (t : tensor4 A) : nat := (dims t).1.2.
Definition dim3 {A} (t : tensor4 A) : nat := (dims t).2.

(** [tensor_Forall P t]: every element of [t] satisfies [P]. *)
Definition tensor_Forall {A} (P : A → Prop) (t : tensor4 A) : Prop :=
  ∀ i j k l, i < dim0 t → j < dim1 t → k < dim2 t → l < dim3 t →
    P (elt t i j k l).

(** [t.permute(0, 3, 1, 2)] *)
Definition permute_0312 {A} (t : tensor4 A) : tensor4 A :=
  Tensor4 (dim0 t, dim3 t, dim1 t, dim2 t) (λ b c h w, elt t b h w c).

(** [t.permute(0, 2, 3, 1)] *)
Definition permute_0231 {A} (t : tensor4 A) : tensor4 A :=
  Tensor4 (dim0 t, dim2 t, dim3 t, dim1 t) (λ b h w c, elt t b c h w).

(** [t[:, :n]] and [t[:, n:]] *)
Definition slice1_to {A} (n : nat) (t : tensor4 A) : tensor4 A :=
  Tensor4 (dim0 t, Nat.min n (dim1 t), dim2 t, dim3 t) (elt t).
Definition slice1_from {A} (n : nat) (t : tensor4 A) : tensor4 A :=
  Tensor4 (dim0 t, dim1 t - n, dim2 t, dim3 t) (λ b c h w, elt t b (n + c) h w).

(** [t[..., :n]] and [t[..., n:]] *)
Definition slice3_to {A} (n : nat) (t : tensor4 A) : tensor4 A :=
  Tensor4 (dim0 t, dim1 t, dim2 t, Nat.min n (dim3 t)) (elt t).
Definition slice3_from {A} (n : nat) (t : tensor4 A) : tensor4 A :=
  Tensor4 (dim0 t, dim1 t, dim2 t, dim3 t - n) (λ b h w c, elt t b h w (n + c)).

(** Element-wise operations: [t * 255] and [t > 0.0]. *)
Definition tensor_map {A B} (f : A → B) (t : tensor4 A) : tensor4 B :=
  Tensor4 (dims t) (λ i j k l, f (elt t i j k l)).
Definition tensor_scale (c : Q) : tensor4 Q → tensor4 Q :=
  tensor_map (λ x, (x * c)%Q).
Definition Qgtb (x y : Q) : bool := negb (Qle_bool x y).
Definition tensor_gt (c : Q) : tensor4 Q → tensor4 bool :=
  tensor_map (λ x, Qgtb x c).

(** [t.expand(b, -1, -1, -1)]: dimension 0 is broadcast from 1 or kept. *)
Definition expand0 {A} (b : nat) (t : tensor4 A) : result (tensor4 A) :=
  if decide (dim0 t = 1) then
    Ok (Tensor4 (b, dim1 t, dim2 t, dim3 t) (λ _, elt t 0))
  else if decide (dim0 t = b) then Ok t
  else Raise (RuntimeError "expand: size mismatch at dimension 0").

(** A tensor returned to the caller carries its dtype. *)
Inductive tensor :=
  | FloatTensor (t : tensor4 Q)
  | BoolTensor (t : tensor4 bool).

(** A point, a vertex or a colour: one row of a [(B, N, 3)] tensor.  Such a
    tensor is the list of its [B] batch elements, each a list of [N] rows. *)
Abbreviation point := (Q * Q * Q)%type (only parsing).
Abbreviation cloud := (list (list point)) (only parsing).

(** [t.shape[0]] and [t.shape[1]].  A tensor with no batch element has no
    row either, whatever its [shape[1]]; it is the empty list. *)
Definition shape0 {A} (t : list (list A)) : nat := length t.
Definition shape1 {A} (t : list (list A)) : nat :=
  match t with
  | [] => 0
  | r :: _ => length r
  end.

(** ** The objects of pytorch3d

    Each constructor call of the source is a record of its arguments; the
    keyword arguments no call of the source passes keep pytorch3d's defaults
    and are left out.  Moving a tensor to a device ([.to(device)]) keeps its
    values and is left out too. *)

Abbreviation device := string (only parsing).
Abbreviation matrix := (list (list Q)) (only parsing).
Abbreviation vector := (list Q) (only parsing).

(** [FoVPerspectiveCameras(device=, R=, T=, znear=, zfar=)] *)
Record FoVPerspectiveCameras := {
  fov_device : device;
  fov_R : list matrix;
  fov_T : list vector;
  znear : Q;
  zfar : Q
}.

(** [PerspectiveCameras(principal_point=, focal_length=, image_size=,
    device=, R=, T=)] *)
Record PerspectiveCameras := {
  principal_point : list (list Q);
  focal_length : option (list (list Q));
  pc_image_size : list (list Q);
  pc_device : device;
  pc_R : list matrix;
  pc_T : list vector
}.

(** A camera object handed in by a caller. *)
Inductive CamerasBase :=
  | Perspective (c : PerspectiveCameras)
  | FoVPerspective (c : FoVPerspectiveCameras).

(** [PointsRasterizationSettings(image_size=, radius=, points_per_pixel=)] *)
Record PointsRasterizationSettings := {
  prs_image_size : nat;
  radius : Q;
  points_per_pixel : nat
}.

(** Python objects have an identity: a camera object lives in the object
    store at a location, and a field holding the camera holds that
    location. *)
Abbreviation loc := positive (only parsing).

(** [PointsRasterizer(cameras=, raster_settings=)] *)
Record PointsRasterizer := {
  pr_cameras : loc;
  pr_raster_settings : PointsRasterizationSettings
}.

Inductive compositor := AlphaCompositor.

(** [PointsRenderer(rasterizer=, compositor=)] *)
Record PointsRenderer := {
  rasterizer : PointsRasterizer;
  points_compositor : compositor
}.

(** [Pointclouds(points=, features=)] *)
Record Pointclouds := {
  points : cloud;
  features : cloud
}.

(** [RasterizationSettings(image_size=, blur_radius=, faces_per_pixel=,
    perspective_correct=, cull_backfaces=)]; the last two default to [None]
    and [False]. *)
Record RasterizationSettings := {
  rs_image_size : nat;
  blur_radius : Q;
  faces_per_pixel : nat;
  perspective_correct : option bool;
  cull_backfaces : bool
}.

Inductive lights :=
  | PointLights (dev : device) (location : list (list Q))
  | AmbientLights (dev : device).

Inductive shader :=
  | SoftPhongShader (dev : device) (cams : CamerasBase) (l : lights)
  | SoftSilhouetteShader.

(** A face is a row of vertex indices; a [(B, F, 3)] index tensor is the
    list of its batch elements. *)
Abbreviation face := (list Z) (only parsing).

Inductive textures :=
  | TexturesVertex (verts_features : cloud)
  | TexturesUV (maps : tensor4 Q) (faces_uvs : list (list face))
               (verts_uvs : list (list (list Q))).

(** [Meshes(verts=, faces=, textures=)] *)
Record Meshes := {
  mesh_verts : cloud;
  mesh_faces : list (list face);
  mesh_textures : textures
}.

(** [MeshRasterizer(cameras=, raster_settings=)] *)
Record MeshRasterizer := {
  mr_cameras : CamerasBase;
  mr_raster_settings : RasterizationSettings
}.

(** [MeshRenderer(rasterizer=, shader=)] *)
Record MeshRenderer := {
  mesh_rasterizer : MeshRasterizer;
  mesh_shader : shader
}.

(** What [load_obj(path, load_textures=False)] returns: the vertices, the
    [faces] tuple and the [aux] tuple. *)
Record Faces := {
  verts_idx : list face;
  textures_idx : list face
}.
Record Properties := {
  aux_verts_uvs : option (list (list Q))
}.
Abbreviation obj_file := (list point * Faces * Properties)%type (only parsing).

(** ** The library interface

    The operations of torch and pytorch3d the wrappers call, each a
    function of its arguments.  Random draws read and advance the state of
    torch's global generator.  A renderer is
    called on the scene and returns the [(B, H, W, C)] image tensor, or
    fails inside the library; so does the loader of mesh files.  In
    [PointsRenderer.__call__] the camera given by the keyword [cameras=] is
    the one the rasterizer uses, so the call is a function of that camera
    object. *)
Inductive outcome (A : Type) :=
  | Returns (a : A)
  | Fails (msg : string).
Arguments Returns {A} a.
Arguments Fails {A} msg.

Class Library := {
  rng : Type;
  rand : rng → Q * rng;
  randperm : nat → rng → list nat * rng;
  look_at_view_transform : Q → Q → Q → list matrix * list vector;
  load_obj : string → outcome obj_file;
  PointsRenderer_call :
    PointsRenderer → Pointclouds → FoVPerspectiveCameras → outcome (tensor4 Q);
  MeshRenderer_call : MeshRenderer → Meshes → outcome (tensor4 Q)
}.

(** An error of the library propagates to the caller as it is. *)
Definition call {A} (o : outcome A) : result A :=
  match o with
  | Returns a => Ok a
  | Fails msg => Raise (LibraryError msg)
  end.

Global Instance result_ret : MRet result := λ A a, Ok a.
Global Instance result_bind : MBind result := λ A B f r,
  match r with
  | Ok a => f a
  | Raise e => Raise e
  end.

Global Instance result_fmap : FMap result := λ A B f r,
  match r with
  | Ok a => Ok (f a)
  | Raise e => Raise e
  end.

(** ** The machine: the object store of cameras and the generator state *)

Record machine `{Library} := Machine {
  heap : gmap loc FoVPerspectiveCameras;
  gen : rng
}.

Section machine_ops.
Context `{Library}.

(** Constructing a camera object allocates it at a fresh location. *)
Definition alloc (c : FoVPerspectiveCameras) (m : machine) : loc * machine :=
  let l := fresh (dom (heap m)) in
  (l, Machine _ (<[l := c]> (heap m)) (gen m)).

(** [torch.randperm(n)] *)
Definition draw_randperm (n : nat) (m : machine) : list nat * machine :=
  let '(p, g) := randperm n (gen m) in (p, Machine _ (heap m) g).

Definition draw_point (g : rng) : point * rng :=
  let '(x, g) := rand g in
  let '(y, g) := rand g in
  let '(z, g) := rand g in
  ((x, y, z), g).

Fixpoint draw_row {A} (row : list A) (g : rng) : list point * rng :=
  match row with
  | [] => ([], g)
  | _ :: row' =>
      let '(p, g) := draw_point g in
      let '(ps, g) := draw_row row' g in
      (p :: ps, g)
  end.

Fixpoint draw_rows {A} (rows : list (list A)) (g : rng) : cloud * rng :=
  match rows with
  | [] => ([], g)
  | r :: rows' =>
      let '(c, g) := draw_row r g in
      let '(cs, g) := draw_rows rows' g in
      (c :: cs, g)
  end.

(** [torch.rand_like(t)]: one draw for every element of [t], in row-major
    order. *)
Definition rand_like (t : cloud) (m : machine) : cloud * machine :=
  let '(c, g) := draw_rows t (gen m) in (c, Machine _ (heap m) g).
End machine_ops.

(** ** Operations on [(B, N, 3)] tensors *)

(** [row[idx]]: indexing with an index tensor; an index out of range
    raises. *)
Definition index_select {A} (idx : list nat) (row : list A) : result (list A) :=
  mapM (λ i, match row !! i with
             | Some x => Ok x
             | None => Raise (IndexError "index out of range")
             end) idx.

(** [t.expand(b, -1, -1)] *)
Definition expand {A} (b : nat) (t : list (list A)) : result (list (list A)) :=
  match t with
  | [r] => Ok (replicate b r)
  | _ => if decide (length t = b) then Ok t
         else Raise (RuntimeError "expand: size mismatch at dimension 0")
  end.

(** [torch.cat([s, t], dim=1)] for [s] and [t] of one batch size. *)
Definition cat1 {A} (s t : list (list A)) : list (list A) := zip_with app s t.

(** [torch.linspace(start, stop, steps=n)] *)
Definition linspace (start stop : Q) (n : nat) : list Q :=
  if decide (n = 1) then [start]
  else
    let step := ((stop - start) / inject_Z (Z.of_nat (n - 1)))%Q in
    map (λ i, start + inject_Z (Z.of_nat i) * step)%Q (seq 0 n).

Definition set_coord (c : nat) (x : Q) (p : point) : point :=
  match c with
  | 0 => (x, p.1.2, p.2)
  | 1 => (p.1.1, x, p.2)
  | _ => (p.1.1, p.1.2, x)
  end.

(** [rows[lo:hi, c] = vals], for [vals] of length [hi - lo]. *)
Definition assign_column (lo hi c : nat) (vals : list Q) (rows : list point)
  : list point :=
  imap (λ i p, if decide (lo ≤ i < hi)
               then match vals !! (i - lo) with
                    | Some x => set_coord c x p
                    | None => p
                    end
               else p) rows.

(** [t.new_zeros(n, 3)] *)
Definition new_zeros (n : nat) : list point := replicate n (0%Q, 0%Q, 0%Q).

(** The sentinel view of [Point_Renderer.forward]; [d != 8] on Python
    numbers is [negb (Qeq_bool d 8)]. *)
Definition view_differs (D E A : Q) : bool :=
  negb (Qeq_bool D 8) || negb (Qeq_bool E 30) || negb (Qeq_bool A 30).

(** The number of points kept by the subsampling of line 90. *)
#[local] Set Warnings "-abstract-large-number".
Definition max_points : nat := 10000.
#[local] Set Warnings "abstract-large-number".

(** ** [class Point_Renderer] *)

Module Point_Renderer.
Section with_library.
Context `{Library}.

(** The attributes of an instance. *)
Record t := Build {
  device : string;
  cameras : loc;
  renderer : PointsRenderer
}.

(** The state a call runs in: the instance and the machine. *)
Definition state : Type := t * machine.

(** [FoVPerspectiveCameras(device=dev, R=R, T=T, znear=0.01, zfar=1.0)]
    with [R, T = look_at_view_transform(D, E, A)] *)
Definition view_camera (dev : string) (D E A : Q) : FoVPerspectiveCameras :=
  let '(R, T) := look_at_view_transform D E A in
  {| fov_device := dev; fov_R := R; fov_T := T;
     znear := 1 # 100; zfar := 1 |}.

(** [__init__(self, image_size=256, device='cpu')] *)
Definition init (image_size : nat) (dev : string) (m : machine) : state :=
  let '(c, m) := alloc (view_camera dev 4 30 30) m in
  let raster_settings :=
    {| prs_image_size := image_size; radius := 5 # 1000;
       points_per_pixel := 10 |} in
  let rasterizer :=
    {| pr_cameras := c; pr_raster_settings := raster_settings |} in
  ({| device := dev; cameras := c;
      renderer := {| rasterizer := rasterizer;
                     points_compositor := AlphaCompositor |} |}, m).

(** Lines 86-88: the camera is rebuilt unless the view is (8, 30, 30). *)
Definition update_cameras (D E A : Q) : prog state unit := λ '(self, m),
  if view_differs D E A then
    let '(c, m) := alloc (view_camera (device self) D E A) m in
    (Ok tt, ({| device := device self; cameras := c;
                renderer := renderer self |}, m))
  else (Ok tt, (self, m)).

(** Line 90: [verts[:, torch.randperm(verts.shape[1])[:10000]]] *)
Definition subsample (verts : cloud) : prog state cloud := λ '(self, m),
  let '(perm, m) := draw_randperm (shape1 verts) m in
  (mapM (index_select (take max_points perm)) verts, (self, m)).

(** Lines 91-92 *)
Definition append_ex_points (ex_points : option cloud) (verts : cloud)
  : prog state cloud :=
  match ex_points with
  | Some ex =>
      ex ← lift_result (expand (shape0 verts) ex);
      mret (cat1 verts ex)
  | None => mret verts
  end.

(** Lines 94-97: the points of the three reference axes. *)
Definition axes (coords_size : nat) : list point :=
  let cod := new_zeros (coords_size * 3) in
  let li := linspace 0 1 coords_size in
  let cod := assign_column 0 coords_size 0 li cod in
  let cod := assign_column coords_size (coords_size * 2) 1 li cod in
  assign_column (coords_size * 2) (coords_size * 3) 2 li cod.

(** Lines 93-100 *)
Definition append_coords (coords : bool) (verts : cloud) : cloud :=
  if coords then
    let coords_size := shape1 verts / 10 in
    cat1 verts (replicate (shape0 verts) (axes coords_size))
  else verts.

(** Lines 89-100: the points of the cloud. *)
Definition build_verts (pts : cloud) (coords : bool) (ex_points : option cloud)
  : prog state cloud :=
  verts ← subsample pts;
  verts ← append_ex_points ex_points verts;
  mret (append_coords coords verts).

(** Line 101 *)
Definition colours (verts : cloud) : prog state cloud := λ '(self, m),
  let '(rgb, m) := rand_like verts m in (Ok rgb, (self, m)).

(** Lines 102-103: [self.renderer(point_cloud, cameras=self.cameras)].  In
    a state reached from the constructor the field [cameras] holds the
    location of a camera object. *)
Definition render (point_cloud : Pointclouds) : prog state (tensor4 Q) :=
  λ '(self, m),
  match heap m !! cameras self with
  | Some cam =>
      (call (PointsRenderer_call (renderer self) point_cloud cam), (self, m))
  | None => (Raise (KeyError "cameras"), (self, m))
  end.

(** Lines 89-102: the point cloud handed to the renderer. *)
Definition build_cloud (pts : cloud) (coords : bool) (ex_points : option cloud)
  : prog state Pointclouds :=
  verts ← build_verts pts coords ex_points;
  rgb ← colours verts;
  mret {| points := verts; features := rgb |}.

(** [forward(self, points, D=3, E=15, A=30, coords=True, ex_points=None)] *)
Definition forward (pts : cloud) (D E A : Q) (coords : bool)
    (ex_points : option cloud) : prog state tensor :=
  update_cameras D E A;;
  point_cloud ← build_cloud pts coords ex_points;
  images ← render point_cloud;
  mret (FloatTensor (tensor_scale 255 (permute_0312 images))).

(** A call that leaves every keyword argument at its default. *)
Definition forward_default (pts : cloud) : prog state tensor :=
  forward pts 3 15 30 true None.
End with_library.
End Point_Renderer.

(** ** Operations of numpy, torch and [os.path] used by the mesh wrappers *)

(** [a.astype(np.int32)] on an integer array: values wrap around modulo
    [2^32] into the signed range. *)
Definition astype_int32 (z : Z) : Z :=
  ((z + 2147483648) mod 4294967296 - 2147483648)%Z.

(** [torch.ones_like(t)] and [t.new_ones(t.shape)] *)
Definition ones_like (t : cloud) : cloud :=
  map (map (λ _, (1%Q, 1%Q, 1%Q))) t.

(** [m[:3, :3]] and [m[:3, 3]] of one matrix. *)
Definition rotation_of (m : matrix) : matrix := map (take 3) (take 3 m).
Definition translation_of (m : matrix) : result vector :=
  mapM (λ row, match row !! 3 with
               | Some x => Ok x
               | None => Raise (IndexError "index 3 is out of bounds")
               end) (take 3 m).

(** [t.repeat(b, 1)] of a 2-D tensor and [t[None].repeat(b, 1, 1)]. *)
Definition repeat_rows {A} (b : nat) (t : list A) : list A :=
  mjoin (replicate b t).
Definition repeat_batch {A} (b : nat) (t : A) : list A := replicate b t.

(** [rows[mask]]: the rows where the boolean mask holds; a mask of another
    length than [rows] raises. *)
Definition mask_rows {A} (mask : list bool) (rows : list A) : result (list A) :=
  if decide (length mask = length rows)
  then Ok (filter (λ p, p.1 = true) (zip mask rows)).*2
  else Raise (IndexError "the mask does not match the indexed tensor").

(** [os.path.join(a, b)] for a relative [b]. *)
Definition path_join (a b : string) : string :=
  if decide (a = "") then b
  else if String.eqb (String.substring (String.length a - 1) 1 a) "/"
       then a +:+ b
       else a +:+ "/" +:+ b.

(** ** [class Mesh_Renderer] *)

Module Mesh_Renderer.
Section with_library.
Context `{Library}.

Record t := Build {
  device : string;
  image_size : nat;
  faces : list face;
  raster_settings : RasterizationSettings;
  lights : lights
}.

Definition state : Type := t * machine.

(** Lines 25-32: the face indices of the instance. *)
Definition init_faces (obj_filename : option string)
    (faces : option (list face)) : result (list face) :=
  match obj_filename with
  | Some path =>
      '(verts, faces, aux) ← call (load_obj path);
      mret (verts_idx faces)
  | None =>
      match faces with
      | Some faces => mret (map (map astype_int32) faces)
      | None => Raise (NotImplementedError "Must have faces.")
      end
  end.

(** [__init__(self, image_size, obj_filename=None, faces=None,
    device='cpu')] *)
Definition init (image_size : nat) (obj_filename : option string)
    (faces : option (list face)) (dev : string) : result t :=
  fs ← init_faces obj_filename faces;
  mret {| device := dev; image_size := image_size; faces := fs;
          raster_settings :=
            {| rs_image_size := image_size; blur_radius := 0;
               faces_per_pixel := 1; perspective_correct := None;
               cull_backfaces := false |};
          lights := PointLights dev [[0; 0; 3]]%Q |}.

(** [_build_cameras(self, transform_matrix, focal_length,
    principal_point)]; an argument left at [None] has no [shape] and no
    [repeat]. *)
Definition _build_cameras (self : t) (transform_matrix : option (list matrix))
    (focal_length : option (list (list Q)))
    (principal_point : option (list (list Q))) : result PerspectiveCameras :=
  match transform_matrix with
  | None => Raise (AttributeError "'NoneType' object has no attribute 'shape'")
  | Some transform_matrix =>
      let batch_size := length transform_matrix in
      let size := inject_Z (Z.of_nat (image_size self)) in
      let screen_size := repeat_rows batch_size [[size; size]] in
      match principal_point with
      | None => Raise (AttributeError "'NoneType' object has no attribute 'repeat'")
      | Some principal_point =>
          T ← mapM translation_of transform_matrix;
          mret {| principal_point := repeat_rows batch_size principal_point;
                  focal_length := focal_length;
                  pc_image_size := screen_size;
                  pc_device := device self;
                  pc_R := map rotation_of transform_matrix;
                  pc_T := T |}
      end
  end.

(** Lines 52-66: the renderer and the mesh of a call. *)
Definition scene (self : t) (vertices : cloud) (cameras : CamerasBase)
  : MeshRenderer * Meshes :=
  let faces := repeat_batch (shape0 vertices) (faces self) in
  let verts_rgb := ones_like vertices in
  let textures := TexturesVertex verts_rgb in
  let mesh := {| mesh_verts := vertices; mesh_faces := faces;
                 mesh_textures := textures |} in
  let renderer :=
    {| mesh_rasterizer := {| mr_cameras := cameras;
                             mr_raster_settings := raster_settings self |};
       mesh_shader := SoftPhongShader (device self) cameras (lights self) |} in
  (renderer, mesh).

(** [forward(self, vertices, cameras=None, transform_matrix=None,
    focal_length=None, principal_point=None)] *)
Definition forward (vertices : cloud) (cameras : option CamerasBase)
    (transform_matrix : option (list matrix))
    (focal_length : option (list (list Q)))
    (principal_point : option (list (list Q)))
  : prog state (tensor * tensor) := λ '(self, m),
  (cameras ← match cameras with
             | Some c => mret c
             | None => Perspective <$>
                 _build_cameras self transform_matrix focal_length principal_point
             end;
   let '(renderer, mesh) := scene self vertices cameras in
   render_results ← permute_0312 <$> call (MeshRenderer_call renderer mesh);
   let images := slice1_to 3 render_results in
   let alpha_images := slice1_from 3 render_results in
   mret (FloatTensor (tensor_scale 255 images), FloatTensor alpha_images),
   (self, m)).
End with_library.
End Mesh_Renderer.

(** ** [class Texture_Renderer] *)

Module Texture_Renderer.
Section with_library.
Context `{Library}.

(** The attribute [flame_mask] exists only when the constructor was given
    a mask: [None] is the absent attribute. *)
Record t := Build {
  device : string;
  uvverts : list (list (list Q));
  uvfaces : list (list face);
  faces : list (list face);
  lights : lights;
  raster_settings : RasterizationSettings;
  flame_mask : option (list bool)
}.

Definition state : Type := t * machine.

(** Lines 127-131: the vertices of [f] found in the mask are counted, and
    the face is kept when the count is 3. *)
Definition count_valid (mask : gset Z) (f : face) : nat :=
  foldl (λ valid v, if decide (v ∈ mask) then valid + 1 else valid) 0 f.
Definition face_in_mask (mask : gset Z) (f : face) : bool :=
  if decide (count_valid mask f = 3) then true else false.

(** Lines 124-133 *)
Definition reduced_faces (flame_mask : option (gset Z)) (faces0 : list face)
  : option (list bool) :=
  match flame_mask with
  | Some mask => Some (map (face_in_mask mask) faces0)
  | None => None
  end.

(** [t[0]] *)
Definition first {A} (t : list A) : result A :=
  match t with
  | x :: _ => Ok x
  | [] => Raise (IndexError "index 0 is out of bounds for dimension 0")
  end.

(** [__init__(self, image_size, flame_path, flame_mask=None,
    device='cpu')] *)
Definition init (image_size : nat) (flame_path : string)
    (flame_mask : option (gset Z)) (dev : string) : result t :=
  let obj_filename :=
    path_join (path_join flame_path "FLAME_embedding") "head_template_mesh.obj" in
  '(_, faces, aux) ← call (load_obj obj_filename);
  uvverts ← match aux_verts_uvs aux with
            | Some uvs => Ok [uvs]
            | None => Raise (TypeError "'NoneType' object is not subscriptable")
            end;
  let uvfaces := [textures_idx faces] in
  let faces := [verts_idx faces] in
  faces0 ← first faces;
  mret {| device := dev; uvverts := uvverts; uvfaces := uvfaces;
          faces := faces;
          lights := AmbientLights dev;
          raster_settings :=
            {| rs_image_size := image_size; blur_radius := 0;
               faces_per_pixel := 1; perspective_correct := Some true;
               cull_backfaces := true |};
          flame_mask := reduced_faces flame_mask faces0 |}.

(** Lines 153-166: the silhouette of the masked faces, or [None]. *)
Definition masked_silhouette (self : t) (vertices_world : cloud)
    (faces : list (list face)) (cameras : CamerasBase)
  : result (option tensor) :=
  match flame_mask self with
  | Some mask =>
      let textures_verts := TexturesVertex (ones_like vertices_world) in
      masked ← mapM (mask_rows mask) faces;
      let meshes_masked :=
        {| mesh_verts := vertices_world; mesh_faces := masked;
           mesh_textures := textures_verts |} in
      let silhouette_renderer :=
        {| mesh_rasterizer := {| mr_cameras := cameras;
                                 mr_raster_settings := raster_settings self |};
           mesh_shader := SoftSilhouetteShader |} in
      masks_face ← call (MeshRenderer_call silhouette_renderer meshes_masked);
      mret (Some (BoolTensor
                    (tensor_gt 0 (permute_0312 (slice3_from 3 masks_face)))))
  | None => mret None
  end.

(** [forward(self, vertices_world, texture_images, cameras)] *)
Definition forward (vertices_world : cloud) (texture_images : tensor4 Q)
    (cameras : CamerasBase)
  : prog state (tensor * tensor * option tensor) := λ '(self, m),
  (let batch_size := shape0 vertices_world in
   faces ← expand batch_size (faces self);
   maps ← permute_0231 <$> expand0 batch_size texture_images;
   faces_uvs ← expand batch_size (uvfaces self);
   verts_uvs ← expand batch_size (uvverts self);
   let textures_uv := TexturesUV maps faces_uvs verts_uvs in
   let meshes_world :=
     {| mesh_verts := vertices_world; mesh_faces := faces;
        mesh_textures := textures_uv |} in
   let phong_renderer :=
     {| mesh_rasterizer := {| mr_cameras := cameras;
                              mr_raster_settings := raster_settings self |};
        mesh_shader := SoftPhongShader (device self) cameras (lights self) |} in
   image_ref ← call (MeshRenderer_call phong_renderer meshes_world);
   let images := permute_0312 (slice3_to 3 image_ref) in
   let masks_all := tensor_gt 0 (permute_0312 (slice3_from 3 image_ref)) in
   masks_face ← masked_silhouette self vertices_world faces cameras;
   mret (FloatTensor images, BoolTensor masks_all, masks_face),
   (self, m)).
End with_library.
End Texture_Renderer.

(** ** The contract of the library

    What the wrappers rely on from torch and pytorch3d: [randperm(n)] is a
    permutation of [0..n-1]; [rand] draws from [[0, 1)]; the faces read from
    a mesh file are triangles; alpha compositing of colours of [[0, 1]]
    stays in [[0, 1]]; so do the colour channels of Phong shading of a mesh
    with vertex colours of [[0, 1]] under a point light. *)

Definition unit_interval (x : Q) : Prop := (0 <= x <= 1)%Q.
Definition point_Forall (P : Q → Prop) (p : point) : Prop :=
  P p.1.1 ∧ P p.1.2 ∧ P p.2.
Definition cloud_Forall (P : Q → Prop) (c : cloud) : Prop :=
  Forall (Forall (point_Forall P)) c.

Class LibrarySpec `{Library} : Prop := {
  randperm_permutation n g : (randperm n g).1 ≡ₚ seq 0 n;
  rand_unit g : (0 <= (rand g).1 ∧ (rand g).1 < 1)%Q;
  load_obj_triangles path v f a :
    load_obj path = Returns (v, f, a) →
    Forall (λ r, length r = 3) (verts_idx f);
  compositing_unit r pc cam t :
    cloud_Forall unit_interval (features pc) →
    PointsRenderer_call r pc cam = Returns t →
    tensor_Forall unit_interval t;
  phong_unit r mesh dev cams dev' location colours t :
    mesh_shader r = SoftPhongShader dev cams (PointLights dev' location) →
    mesh_textures mesh = TexturesVertex colours →
    cloud_Forall unit_interval colours →
    MeshRenderer_call r mesh = Returns t →
    ∀ i j k l, i < dim0 t → j < dim1 t → k < dim2 t → l < 3 →
      unit_interval (elt t i j k l)
}.

(** ** A test double of the library

    A small executable instance of [Library], on which the wrappers can be
    run: a counter as generator state, a quad as the mesh of every file but
    one, and renderers that return flat images. *)

Module Double.
Definition quad : obj_file :=
  ([(0, 0, 0); (1, 0, 0); (1, 1, 0); (0, 1, 0)]%Q,
   {| verts_idx := [[0; 1; 2]; [0; 2; 3]]%Z;
      textures_idx := [[0; 1; 2]; [0; 2; 3]]%Z |},
   {| aux_verts_uvs := Some [[0; 0]; [1; 0]; [1; 1]; [0; 1]]%Q |}).

Definition coord (c : nat) (p : point) : Q :=
  match c with
  | 0 => p.1.1
  | 1 => p.1.2
  | _ => p.2
  end.

(** Every pixel of batch element [b] shows the colour of its first
    point, or black. *)
Definition flat_points (r : PointsRenderer) (pc : Pointclouds)
  : tensor4 Q :=
  let size := prs_image_size (pr_raster_settings (rasterizer r)) in
  Tensor4 (length (points pc), size, size, 3)
    (λ b _ _ c, match features pc !! b with
                | Some (p :: _) => coord c p
                | _ => 0%Q
                end).

(** Every pixel is grey with alpha 3/4. *)
Definition flat_mesh (r : MeshRenderer) (mesh : Meshes) : tensor4 Q :=
  let size := rs_image_size (mr_raster_settings (mesh_rasterizer r)) in
  Tensor4 (length (mesh_verts mesh), size, size, 4)
    (λ _ _ _ c, if decide (c = 3) then (3 # 4)%Q else (1 # 2)%Q).

Definition library : Library := {|
  rng := nat;
  rand g := (Qmake (Z.of_nat (g mod 7)) 7, S g);
  randperm n g := (rotate g (seq 0 n), S g);
  look_at_view_transform D E A :=
    ([[[1; 0; 0]; [0; 1; 0]; [0; 0; 1]]], [[0; 0; D]])%Q;
  load_obj path :=
    if decide (path = "missing.obj") then Fails "No such file or directory"
    else Returns quad;
  PointsRenderer_call r pc cam := Returns (flat_points r pc);
  MeshRenderer_call r mesh := Returns (flat_mesh r mesh)
|}.

(** The machine a test starts in. *)
Definition boot : @machine library := @Machine library ∅ 0.
End Double.

(** * The vocabulary of the statements *)

(** [keeps R p]: running [p] relates the state before to the state after,
    whether [p] returns or raises. *)
Definition keeps {St A} (R : St → St → Prop) (p : prog St A) : Prop :=
  ∀ s, R s (p s).2.

(** The view is the sentinel (8, 30, 30). *)
Definition sentinel_view (D E A : Q) : Prop :=
  (D == 8 ∧ E == 30 ∧ A == 30)%Q.

Definition is_bool_tensor (t : tensor) : bool :=
  match t with
  | BoolTensor _ => true
  | FloatTensor _ => false
  end.


(** [t] is a float tensor with every element in [[0, 255]]. *)
Definition rgb_in_range (t : tensor) : Prop :=
  ∃ q, t = FloatTensor q ∧ tensor_Forall (λ x, 0 <= x <= 255)%Q q.

(** Every batch element has [shape[1]] rows. *)
Definition rectangular {A} (t : list (list A)) : Prop :=
  Forall (λ r, length r = shape1 t) t.

(** Element [i] of the even division of [[0, 1]] in [n] points,
    [i / (n - 1)]; for [n = 1] it is 0. *)
Definition even_step (n i : nat) : Q :=
  (inject_Z (Z.of_nat i) / inject_Z (Z.of_nat (n - 1)))%Q.

(** The points of the three axes, written out. *)
Definition axis_points (n : nat) : list (Q * Q * Q) :=
  let li := linspace 0 1 n in
  map (λ x, (x, 0, 0))%Q li ++ map (λ x, (0, x, 0))%Q li
    ++ map (λ x, (0, 0, x))%Q li.

(** The indices line 90 keeps, for the generator state of [m]. *)
Definition sample_indices `{Library} (pts : list (list (Q * Q * Q)))
    (m : machine) : list nat :=
  take max_points (randperm (shape1 pts) (gen m)).1.

(** The extra points of every batch element, after the broadcast of line
    92, and their number per batch element. *)
Definition extra_rows (ex_points : option (list (list (Q * Q * Q))))
    (b : nat) : list (list (Q * Q * Q)) :=
  match ex_points with
  | None => replicate b []
  | Some [r] => replicate b r
  | Some ex => ex
  end.
Definition extra_count (ex_points : option (list (list (Q * Q * Q)))) : nat :=
  match ex_points with
  | None => 0
  | Some ex => shape1 ex
  end.

(** The extra points can be broadcast to a batch of [b] elements. *)
Definition broadcasts (ex_points : option (list (list (Q * Q * Q))))
    (b : nat) : Prop :=
  match ex_points with
  | None => True
  | Some ex => rectangular ex ∧ (length ex = 1 ∨ length ex = b)
  end.

Section point_renderer_vocabulary.
Context `{Library}.
Import Point_Renderer.

(** The instance and the object store are the same in both states; the
    generator may have advanced. *)
Definition same_store (s s' : state) : Prop :=
  s'.1 = s.1 ∧ heap s'.2 = heap s.2.

(** The renderer call of line 103 with the camera object spelled out. *)
Definition render_with (cam : FoVPerspectiveCameras) (pc : Pointclouds)
  : prog state (tensor4 Q) :=
  λ s, (call (PointsRenderer_call (renderer s.1) pc cam), s).

(** The tail of [forward], after the camera step, rendering with [cam]. *)
Definition forward_tail (pts : cloud) (coords : bool)
    (ex_points : option cloud) (cam : FoVPerspectiveCameras)
  : prog state tensor :=
  point_cloud ← build_cloud pts coords ex_points;
  images ← render_with cam point_cloud;
  mret (FloatTensor (tensor_scale 255 (permute_0312 images))).



(** The states an instance goes through: the state [s0] the constructor
    leaves, and the state after any call of [forward]. *)
Inductive reachable (s0 : state) : state → Prop :=
  | reachable_init : reachable s0 s0
  | reachable_forward s pts D E A coords ex_points :
      reachable s0 s →
      reachable s0 (forward pts D E A coords ex_points s).2.

End point_renderer_vocabulary.

Section mesh_vocabulary.
Context `{Library}.

(** The camera a call of [Mesh_Renderer.forward] renders with. *)
Definition mesh_camera (self : Mesh_Renderer.t) (cameras : option CamerasBase)
    (tm : option (list matrix)) (fl pp : option (list (list Q)))
  : result CamerasBase :=
  match cameras with
  | Some c => Ok c
  | None => Perspective <$> Mesh_Renderer._build_cameras self tm fl pp
  end.

(** The scene of the Phong pass of [Texture_Renderer.forward]. *)
Definition texture_scene (self : Texture_Renderer.t) (vertices_world : cloud)
    (texture_images : tensor4 Q) (cameras : CamerasBase)
  : result (MeshRenderer * Meshes) :=
  let batch_size := shape0 vertices_world in
  faces ← expand batch_size (Texture_Renderer.faces self);
  maps ← permute_0231 <$> expand0 batch_size texture_images;
  faces_uvs ← expand batch_size (Texture_Renderer.uvfaces self);
  verts_uvs ← expand batch_size (Texture_Renderer.uvverts self);
  mret ({| mesh_rasterizer :=
             {| mr_cameras := cameras;
                mr_raster_settings := Texture_Renderer.raster_settings self |};
           mesh_shader :=
             SoftPhongShader (Texture_Renderer.device self) cameras
               (Texture_Renderer.lights self) |},
        {| mesh_verts := vertices_world; mesh_faces := faces;
           mesh_textures := TexturesUV maps faces_uvs verts_uvs |}).

End mesh_vocabulary.

(** Inputs of the test calls. *)
Module Samples.
Import Double.

Definition triangle : cloud := [[(0, 0, 0); (1, 0, 0); (0, 1, 0)]]%Q.
Definition line : cloud :=
  [map (λ i, (inject_Z (Z.of_nat i), 0, 0)%Q) (seq 0 25)].
Definition identity4 : matrix :=
  [[1; 0; 0; 0]; [0; 1; 0; 0]; [0; 0; 1; 0]; [0; 0; 0; 1]]%Q.
Definition white_texture : tensor4 Q := Tensor4 (1, 3, 2, 2) (λ _ _ _ _, 1%Q).
Definition camera : CamerasBase :=
  FoVPerspective (@Point_Renderer.view_camera library "cpu" 4 30 30).


(** A texture renderer with and without a mask, and its call on the four
    vertices of the quad. *)
Definition quad_verts : cloud := [[(0, 0, 0); (1, 0, 0); (1, 1, 0); (0, 1, 0)]]%Q.
Definition texture_call (flame_mask : option (gset Z))
  : result (tensor * tensor * option tensor)
    * (Texture_Renderer.t * machine) + exn :=
  match @Texture_Renderer.init library 2 "flame" flame_mask "cpu" with
  | Ok self =>
      inl (@Texture_Renderer.forward library quad_verts white_texture camera
             (self, boot))
  | Raise e => inr e
  end.
End Samples.

(** ** Shapes, ranges and counts *)



(** The range of a signed 32-bit integer. *)
Definition in_int32 (z : Z) : Prop := (-2147483648 ≤ z < 2147483648)%Z.

(** The generator state after [n] draws of [rand]. *)
Definition after_draws `{Library} (n : nat) (g : rng) : rng :=
  Nat.iter n (λ g, (rand g).2) g.

(** The number of rows of a [(B, N, 3)] tensor, over all batch elements. *)
Definition count_rows {A} (t : list (list A)) : nat :=
  sum_list (length <$> t).

(** A colour component drawn by [rand]. *)
Definition half_open_unit (x : Q) : Prop := (0 <= x ∧ x < 1)%Q.

(** * Properties *)

(** ** Programs *)

Section programs.
Context {St : Type}.

Lemma bind_run {A B} (p : prog St A) (f : A → prog St B) (s : St) :
  (p ≫= f) s =
  match p s with
  | (Ok a, s') => f a s'
  | (Raise e, s') => (Raise e, s')
  end.
Proof. reflexivity. Qed.


Lemma keeps_ret {A} (R : St → St → Prop) `{!Reflexive R} (a : A) :
  keeps R (mret a).
Proof. intros s. simpl. reflexivity. Qed.

Lemma keeps_lift_result {A} (R : St → St → Prop) `{!Reflexive R}
    (r : result A) :
  keeps R (lift_result r).
Proof. intros s. simpl. reflexivity. Qed.

Lemma keeps_bind {A B} (R : St → St → Prop) `{!Transitive R}
    (p : prog St A) (f : A → prog St B) :
  keeps R p → (∀ a, keeps R (f a)) → keeps R (p ≫= f).
Proof.
  intros Hp Hf s. rewrite bind_run.
  specialize (Hp s). destruct (p s) as [[a|e] s']; simpl in *.
  - etrans; [exact Hp | apply Hf].
  - exact Hp.
Qed.
End programs.

(** ** The sentinel view *)

Lemma view_differs_false D E A :
  view_differs D E A = false ↔ sentinel_view D E A.
Proof.
  unfold view_differs, sentinel_view.
  rewrite !orb_false_iff, !negb_false_iff, !Qeq_bool_iff. tauto.
Qed.

Lemma view_differs_true D E A :
  view_differs D E A = true ↔ ¬ sentinel_view D E A.
Proof.
  rewrite <- view_differs_false. destruct (view_differs D E A); split; congruence.
Qed.

(** ** [Point_Renderer]: the instance and the object store *)

Section point_renderer_store.
Context `{Library}.
Import Point_Renderer.

#[local] Instance same_store_refl : Reflexive same_store.
Proof. intros s. split; reflexivity. Qed.

#[local] Instance same_store_trans : Transitive same_store.
Proof. intros s1 s2 s3 [? ?] [? ?]. split; congruence. Qed.

Lemma subsample_keeps verts : keeps same_store (subsample verts).
Proof.
  intros [self m]. unfold subsample, draw_randperm.
  destruct (randperm _ _). split; reflexivity.
Qed.

Lemma append_ex_points_keeps ex verts :
  keeps same_store (append_ex_points ex verts).
Proof.
  destruct ex; simpl.
  - apply keeps_bind; [apply _ | apply keeps_lift_result, _ |].
    intros a. apply keeps_ret, _.
  - apply keeps_ret, _.
Qed.

Lemma colours_keeps verts : keeps same_store (colours verts).
Proof.
  intros [self m]. unfold colours, rand_like.
  destruct (draw_rows _ _). split; reflexivity.
Qed.

Lemma render_keeps pc : keeps same_store (render pc).
Proof.
  intros [self m]. unfold render.
  destruct (heap m !! cameras self); split; reflexivity.
Qed.

Lemma build_cloud_keeps pts coords ex :
  keeps same_store (build_cloud pts coords ex).
Proof.
  unfold build_cloud, build_verts.
  apply keeps_bind; [apply _ | | intros verts].
  - apply keeps_bind; [apply _ | apply subsample_keeps | intros verts].
    apply keeps_bind; [apply _ | apply append_ex_points_keeps | intros ?].
    apply keeps_ret, _.
  - apply keeps_bind; [apply _ | apply colours_keeps | intros rgb].
    apply keeps_ret, _.
Qed.

(** After the camera step, [forward] touches neither the instance nor the
    object store. *)
Lemma forward_after_update pts D E A coords ex s :
  same_store (update_cameras D E A s).2 (forward pts D E A coords ex s).2.
Proof.
  unfold forward. rewrite bind_run.
  destruct (update_cameras D E A s) as [[[]|e] s1] eqn:Hu; simpl.
  - apply (keeps_bind same_store); [apply build_cloud_keeps |].
    intros pc. apply (keeps_bind same_store); [apply render_keeps |].
    intros img. apply keeps_ret, _.
  - reflexivity.
Qed.

Lemma update_cameras_reuse D E A self m :
  view_differs D E A = false →
  update_cameras D E A (self, m) = (Ok tt, (self, m)).
Proof. intros Hv. unfold update_cameras. by rewrite Hv. Qed.

Lemma update_cameras_rebuild D E A self m :
  view_differs D E A = true →
  let c := fresh (dom (heap m)) in
  update_cameras D E A (self, m) =
    (Ok tt, (Build (device self) c (renderer self),
             Machine _ (<[c := view_camera (device self) D E A]> (heap m))
               (gen m))).
Proof. intros Hv. unfold update_cameras, alloc. by rewrite Hv. Qed.
End point_renderer_store.

Section point_renderer_camera.
Context `{Library}.
Import Point_Renderer.

Lemma render_camera pc cam s :
  heap s.2 !! cameras s.1 = Some cam → render pc s = render_with cam pc s.
Proof. destruct s as [self m]. simpl. unfold render. by intros ->. Qed.

Lemma forward_renders_with pts D E A coords ex s cam :
  let s1 := (update_cameras D E A s).2 in
  heap s1.2 !! cameras s1.1 = Some cam →
  forward pts D E A coords ex s = forward_tail pts coords ex cam s1.
Proof.
  intros s1 Hcam. unfold forward, forward_tail. rewrite bind_run.
  assert ((update_cameras D E A s).1 = Ok tt) as Hu.
  { destruct s as [self m]. unfold update_cameras, alloc.
    by destruct (view_differs D E A). }
  subst s1. destruct (update_cameras D E A s) as [r s1]. simpl in *. subst r.
  rewrite !bind_run.
  pose proof (build_cloud_keeps pts coords ex s1) as [Hself Hheap].
  destruct (build_cloud pts coords ex s1) as [[pc|e] s2]; [|done].
  simpl in *. rewrite !bind_run.
  rewrite (render_camera pc cam); [done |].
  by rewrite Hself, Hheap.
Qed.

(** The state after the camera step, in both cases. *)
Lemma update_cameras_store D E A self m :
  let s1 := (update_cameras D E A (self, m)).2 in
  (view_differs D E A = false → s1 = (self, m))
  ∧ (view_differs D E A = true →
      cameras s1.1 = fresh (dom (heap m)) ∧
      device s1.1 = device self ∧ renderer s1.1 = renderer self ∧
      heap s1.2 =
        <[cameras s1.1 := view_camera (device self) D E A]> (heap m)).
Proof.
  split; intros Hv.
  - by rewrite update_cameras_reuse.
  - by rewrite update_cameras_rebuild.
Qed.

(** C1. [Point_Renderer.forward] rebuilds its camera if and only if the
    view (D, E, A) differs from the sentinel (8, 30, 30).  For the
    sentinel the camera field still holds the same camera object and the
    object store is unchanged; for every other view the field holds a
    camera object that did not exist before the call, and that object is
    [FoVPerspectiveCameras] of [look_at_view_transform(D, E, A)] with
    [znear=0.01] and [zfar=1.0]. *)
Theorem forward_rebuilds_camera_iff pts D E A coords ex self m cam :
  heap m !! cameras self = Some cam →
  let s' := (forward pts D E A coords ex (self, m)).2 in
  (sentinel_view D E A →
     cameras s'.1 = cameras self ∧ heap s'.2 = heap m ∧
     heap s'.2 !! cameras s'.1 = Some cam)
  ∧ (¬ sentinel_view D E A →
     (cameras s'.1 ∉ dom (heap m)) ∧
     heap s'.2 = <[cameras s'.1 := view_camera (device self) D E A]> (heap m) ∧
     heap s'.2 !! cameras s'.1 = Some (view_camera (device self) D E A) ∧
     znear (view_camera (device self) D E A) = (1 # 100)%Q ∧
     zfar (view_camera (device self) D E A) = 1%Q ∧
     (fov_R (view_camera (device self) D E A),
      fov_T (view_camera (device self) D E A)) = look_at_view_transform D E A)
  ∧ (cameras s'.1 ≠ cameras self ↔ ¬ sentinel_view D E A).
Proof.
  intros Hcam s'.
  pose proof (forward_after_update pts D E A coords ex (self, m)) as [Hs Hh].
  fold s' in Hs, Hh.
  pose proof (update_cameras_store D E A self m) as [Hreuse Hrebuild].
  assert (sentinel_view D E A →
          cameras s'.1 = cameras self ∧ heap s'.2 = heap m) as Hsent.
  { intros Hv%view_differs_false. specialize (Hreuse Hv).
    rewrite Hs, Hh, Hreuse. done. }
  assert (¬ sentinel_view D E A →
          cameras s'.1 = fresh (dom (heap m)) ∧
          heap s'.2 = <[cameras s'.1 := view_camera (device self) D E A]> (heap m))
    as Hnew.
  { intros Hv%view_differs_true. destruct (Hrebuild Hv) as (Hc & _ & _ & Hm).
    rewrite Hs, Hh. done. }
  split; [|split].
  - intros Hv. destruct (Hsent Hv) as [-> ->]. done.
  - intros Hv. destruct (Hnew Hv) as [Hc Hm]. split; [|split; [|split]].
    + rewrite Hc. apply is_fresh.
    + exact Hm.
    + rewrite Hm. apply lookup_insert_eq.
    + unfold view_camera. by destruct (look_at_view_transform D E A).
  - split.
    + intros Hne Hv. by destruct (Hsent Hv).
    + intros Hv. destruct (Hnew Hv) as [Hc _]. rewrite Hc. intros Heq.
      apply (is_fresh (dom (heap m))). rewrite Heq.
      apply elem_of_dom. eauto.
Qed.

(** In every state of an instance the constructor's camera object is in
    the store, unchanged, and the field [cameras] holds a camera object. *)
Lemma reachable_invariant image_size dev m0 s :
  reachable (init image_size dev m0) s →
  device s.1 = dev
  ∧ renderer s.1 = renderer (init image_size dev m0).1
  ∧ heap s.2 !! cameras (init image_size dev m0).1
    = Some (view_camera dev 4 30 30)
  ∧ is_Some (heap s.2 !! cameras s.1).
Proof.
  induction 1 as [|s pts D E A coords ex Hs (Hdev & Hrend & Hc0 & Hcam)].
  - unfold init, alloc. simpl. rewrite lookup_insert_eq. eauto.
  - destruct s as [self m]. simpl in Hdev, Hrend, Hcam.
    pose proof (forward_after_update pts D E A coords ex (self, m)) as [Hself Hheap].
    pose proof (update_cameras_store D E A self m) as [Hreuse Hrebuild].
    rewrite Hself, Hheap. destruct (view_differs D E A).
    + destruct (Hrebuild eq_refl) as (Hc & Hd & Hr & Hm).
      rewrite Hd, Hr, Hm. split; [done |]. split; [done |].
      rewrite lookup_insert_eq. split; [|eauto].
      rewrite lookup_insert_ne; [done |]. rewrite Hc. intros Heq.
      apply (is_fresh (dom (heap m))). rewrite Heq. apply elem_of_dom. eauto.
    + by rewrite (Hreuse eq_refl).
Qed.

(** C10. The default view of [forward] is (3, 15, 30), not the sentinel.
    In every state of an instance, a call with the defaults rebinds the
    field [cameras] to a new camera object of view (3, 15, 30), which is
    not the camera object of view (4, 30, 30) the constructor built, and
    the renderer is called with that new camera object. *)
Theorem forward_default_rebuilds image_size dev m0 s pts :
  reachable (init image_size dev m0) s →
  let c0 := cameras (init image_size dev m0).1 in
  let r := forward_default pts s in
  ¬ sentinel_view 3 15 30
  ∧ heap s.2 !! c0 = Some (view_camera dev 4 30 30)
  ∧ cameras r.2.1 ≠ c0
  ∧ (cameras r.2.1 ∉ dom (heap s.2))
  ∧ heap r.2.2 !! cameras r.2.1 = Some (view_camera dev 3 15 30)
  ∧ r = forward_tail pts true None (view_camera dev 3 15 30)
          (update_cameras 3 15 30 s).2.
Proof.
  intros Hs c0 r.
  destruct (reachable_invariant image_size dev m0 s Hs) as (Hdev & _ & Hc0 & _).
  assert (view_differs 3 15 30 = true) as Hv by reflexivity.
  destruct s as [self m]. simpl in Hdev, Hc0.
  pose proof (forward_after_update pts 3 15 30 true None (self, m))
    as [Hself Hheap].
  pose proof (update_cameras_store 3 15 30 self m) as [_ Hrebuild].
  destruct (Hrebuild Hv) as (Hc & _ & _ & Hm).
  fold (forward_default pts (self, m)) in Hself, Hheap. fold r in Hself, Hheap.
  assert (cameras r.2.1 ∉ dom (heap m)) as Hfresh.
  { rewrite Hself, Hc. apply is_fresh. }
  split; [by apply view_differs_true |]. split; [exact Hc0 |].
  split; [|split; [exact Hfresh | split]].
  - intros Heq. apply Hfresh. rewrite Heq. apply elem_of_dom. eauto.
  - rewrite Hself, Hheap, Hm, Hdev. apply lookup_insert_eq.
  - subst r. unfold forward_default. apply forward_renders_with.
    rewrite Hm, Hdev. apply lookup_insert_eq.
Qed.
End point_renderer_camera.

(** ** Results *)

Lemma result_bind_Ok {A B} (r : result A) (f : A → result B) (b : B) :
  r ≫= f = Ok b ↔ ∃ a, r = Ok a ∧ f a = Ok b.
Proof.
  destruct r as [a|e]; simpl; split.
  - eauto.
  - by intros (a' & [= <-] & ?).
  - done.
  - by intros (a' & ? & ?).
Qed.

Lemma result_fmap_Ok {A B} (r : result A) (f : A → B) (b : B) :
  f <$> r = Ok b ↔ ∃ a, r = Ok a ∧ b = f a.
Proof.
  destruct r as [a|e]; simpl; split.
  - intros [= <-]. eauto.
  - by intros (a' & [= <-] & ->).
  - done.
  - by intros (a' & ? & ?).
Qed.

Lemma call_Ok {A} (o : outcome A) (a : A) : call o = Ok a ↔ o = Returns a.
Proof. destruct o; simpl; split; congruence. Qed.

Lemma call_Raise {A} (o : outcome A) (e : exn) :
  call o = Raise e ↔ ∃ msg, o = Fails msg ∧ e = LibraryError msg.
Proof.
  destruct o; simpl; split.
  - done.
  - by intros (? & ? & ?).
  - intros [= <-]. eauto.
  - by intros (? & [= <-] & ->).
Qed.

(** ** Data types of returned tensors *)


(** ** [Mesh_Renderer] and [Texture_Renderer]: what a call returns *)

Section mesh_calls.
Context `{Library}.



Lemma mesh_forward_Ok vertices cameras tm fl pp self m images alpha :
  (Mesh_Renderer.forward vertices cameras tm fl pp (self, m)).1
    = Ok (images, alpha) ↔
  ∃ cam raw,
    mesh_camera self cameras tm fl pp = Ok cam ∧
    MeshRenderer_call (Mesh_Renderer.scene self vertices cam).1
      (Mesh_Renderer.scene self vertices cam).2 = Returns raw ∧
    images = FloatTensor (tensor_scale 255 (slice1_to 3 (permute_0312 raw))) ∧
    alpha = FloatTensor (slice1_from 3 (permute_0312 raw)).
Proof.
  unfold Mesh_Renderer.forward. simpl. rewrite result_bind_Ok. split.
  - intros (cam & Hcam & Hrest). exists cam.
    apply result_bind_Ok in Hrest as (rr & Hrr & Hret).
    apply result_fmap_Ok in Hrr as (raw & Hraw%call_Ok & ->).
    injection Hret as <- <-. exists raw. split; [|done].
    unfold mesh_camera. destruct cameras; exact Hcam.
  - intros (cam & raw & Hcam & Hraw & -> & ->). exists cam. split.
    + unfold mesh_camera in Hcam. destruct cameras; exact Hcam.
    + apply result_bind_Ok. exists (permute_0312 raw). split; [|done].
      apply result_fmap_Ok. exists raw. split; [|done]. by apply call_Ok.
Qed.

Lemma texture_forward_Ok vertices_world texture_images cameras self m
    images masks_all masks_face :
  (Texture_Renderer.forward vertices_world texture_images cameras (self, m)).1
    = Ok (images, masks_all, masks_face) ↔
  ∃ renderer meshes image_ref,
    texture_scene self vertices_world texture_images cameras
      = Ok (renderer, meshes) ∧
    MeshRenderer_call renderer meshes = Returns image_ref ∧
    images = FloatTensor (permute_0312 (slice3_to 3 image_ref)) ∧
    masks_all =
      BoolTensor (tensor_gt 0 (permute_0312 (slice3_from 3 image_ref))) ∧
    Texture_Renderer.masked_silhouette self vertices_world
      (mesh_faces meshes) cameras = Ok masks_face.
Proof.
  unfold Texture_Renderer.forward, texture_scene. simpl.
  destruct (expand _ (Texture_Renderer.faces self)) as [faces|e]; simpl;
    [|split; [done | by intros (? & ? & ? & ? & _)]].
  destruct (expand0 _ texture_images) as [maps|e]; simpl;
    [|split; [done | by intros (? & ? & ? & ? & _)]].
  destruct (expand _ (Texture_Renderer.uvfaces self)) as [faces_uvs|e]; simpl;
    [|split; [done | by intros (? & ? & ? & ? & _)]].
  destruct (expand _ (Texture_Renderer.uvverts self)) as [verts_uvs|e]; simpl;
    [|split; [done | by intros (? & ? & ? & ? & _)]].
  split.
  - intros (image_ref & Hcall%call_Ok & Hrest)%result_bind_Ok.
    apply result_bind_Ok in Hrest as (mf & Hmf & [= <- <- <-]).
    eexists _, _, image_ref. split; [reflexivity |]. done.
  - intros (renderer & meshes & image_ref & [= <- <-] & Hcall & -> & -> & Hmf).
    apply result_bind_Ok. exists image_ref. split; [by apply call_Ok |].
    apply result_bind_Ok. exists masks_face. done.
Qed.
End mesh_calls.

(** ** Frame properties of a call *)

Section frame.
Context `{Library}.


End frame.



(** ** The data type of the masks *)

Section masks.
Context `{Library}.

Lemma masked_silhouette_dtype self vertices_world faces cameras masks_face :
  Texture_Renderer.masked_silhouette self vertices_world faces cameras
    = Ok masks_face →
  match masks_face with
  | Some t => is_bool_tensor t = true ∧ is_Some (Texture_Renderer.flame_mask self)
  | None => Texture_Renderer.flame_mask self = None
  end.
Proof.
  unfold Texture_Renderer.masked_silhouette.
  destruct (Texture_Renderer.flame_mask self) as [mask|].
  - intros (masked & _ & Hrest)%result_bind_Ok.
    apply result_bind_Ok in Hrest as (raw & _ & [= <-]). eauto.
  - by intros [= <-].
Qed.


(** C8. The third output of [Texture_Renderer.forward] is [None] if and
    only if the constructor was given no mask, on every call that returns;
    and without a mask the silhouette pass returns [None] and raises
    nothing. *)
Theorem masks_face_None_iff image_size flame_path flame_mask dev self :
  Texture_Renderer.init image_size flame_path flame_mask dev = Ok self →
  (Texture_Renderer.flame_mask self = None ↔ flame_mask = None)
  ∧ (∀ vertices_world texture_images cameras m images masks_all masks_face,
       (Texture_Renderer.forward vertices_world texture_images cameras
          (self, m)).1 = Ok (images, masks_all, masks_face) →
       (masks_face = None ↔ flame_mask = None))
  ∧ (flame_mask = None →
     ∀ vertices_world faces cameras,
       Texture_Renderer.masked_silhouette self vertices_world faces cameras
         = Ok None).
Proof.
  intros Hinit.
  assert (Texture_Renderer.flame_mask self = None ↔ flame_mask = None) as Hfm.
  { unfold Texture_Renderer.init in Hinit.
    apply result_bind_Ok in Hinit as ([[v f] a] & _ & Hinit).
    apply result_bind_Ok in Hinit as (uv & _ & Hinit).
    apply result_bind_Ok in Hinit as (faces0 & _ & [= <-]). simpl.
    by destruct flame_mask. }
  split; [exact Hfm | split].
  - intros vertices_world texture_images cameras m images masks_all
      masks_face Hf.
    apply texture_forward_Ok in Hf
      as (renderer & meshes & image_ref & _ & _ & _ & _ & Hmf).
    apply masked_silhouette_dtype in Hmf. rewrite <- Hfm.
    destruct masks_face as [t|]; [|done].
    destruct Hmf as [_ [mask Hmask]]. rewrite Hmask. done.
  - intros Hnone%Hfm vertices_world faces cameras.
    unfold Texture_Renderer.masked_silhouette. by rewrite Hnone.
Qed.
End masks.



(** The test double meets the contract of the library. *)
Module DoubleSpec.
Import Double.

Lemma coord_unit c p : point_Forall unit_interval p → unit_interval (coord c p).
Proof.
  intros (Hx & Hy & Hz). destruct c as [|[|c]]; simpl; assumption.
Qed.

Lemma flat_points_unit r pc :
  cloud_Forall unit_interval (features pc) →
  tensor_Forall unit_interval (flat_points r pc).
Proof.
  intros Hpc b h w c _ _ _ _. simpl.
  destruct (features pc !! b) as [[|p row]|] eqn:Hb; try (split; done).
  apply coord_unit.
  eapply Forall_lookup_1 in Hpc; [|exact Hb].
  by apply Forall_cons in Hpc as [Hp _].
Qed.

Lemma spec : @LibrarySpec library.
Proof.
  split.
  - intros n g. simpl. unfold rotate.
    rewrite Permutation_app_comm. by rewrite take_drop.
  - intros g. simpl. unfold Qle, Qlt. simpl.
    pose proof (Nat.mod_upper_bound g 7). lia.
  - intros path v f a. simpl. case_decide; [done |].
    intros [= <- <- <-]. simpl. by repeat constructor.
  - intros r pc cam t Hpc [= <-]. by apply flat_points_unit.
  - intros r mesh dev cams dev' location colours t _ _ _ [= <-] i j k l _ _ _ Hl.
    simpl. case_decide; [lia |]. by split.
Qed.
End DoubleSpec.

Lemma masks_face_None_iff_witness :
  match Samples.texture_call None with
  | inl (Ok (_, _, masks_face), _) => masks_face = None
  | _ => False
  end.
Proof.
  destruct (Samples.texture_call None)
    as [[[[[images masks_all] masks_face]|e] s]|e] eqn:Hcall;
    try (vm_compute in Hcall; discriminate Hcall).
  unfold Samples.texture_call in Hcall.
  destruct (Texture_Renderer.init _ _ _ _) as [self|e] eqn:Hinit; [|discriminate].
  apply (f_equal (λ x, match x with inl p => p.1 | inr e => Raise e end))
    in Hcall.
  destruct (@masks_face_None_iff Double.library _ _ _ _ _ Hinit) as (_ & Hiff & _).
  by apply (Hiff _ _ _ _ _ _ _ Hcall).
Defined.

(** ** The face mask of [Texture_Renderer] *)

Section face_mask.
Context `{Library}.
Import Texture_Renderer.

Lemma count_valid_filter (mask : gset Z) (f : list Z) :
  count_valid mask f = length (filter (λ v, v ∈ mask) f).
Proof.
  unfold count_valid.
  enough (∀ n, foldl (λ valid v, if decide (v ∈ mask) then valid + 1 else valid)
                 n f = n + length (filter (λ v, v ∈ mask) f)) as Hgen
    by apply (Hgen 0).
  induction f as [|v f IH]; intros n.
  - simpl. lia.
  - rewrite filter_cons. cbn [foldl]. rewrite IH.
    destruct (decide (v ∈ mask)); simpl; lia.
Qed.

Lemma filter_all_length {A} (P : A → Prop) `{!∀ x, Decision (P x)} (l : list A) :
  length (filter P l) = length l ↔ Forall P l.
Proof.
  induction l as [|x l IH].
  - split; [constructor | done].
  - rewrite filter_cons, Forall_cons. pose proof (length_filter P l).
    destruct (decide (P x)); simpl.
    + rewrite <- IH. split; [intros [=]; done | intros [_ ->]; done].
    + split; [lia | tauto].
Qed.

(** A face of three vertices is in the mask exactly when its three
    vertices are. *)
Lemma face_in_mask_triangle mask a b c :
  face_in_mask mask [a; b; c] = true ↔ a ∈ mask ∧ b ∈ mask ∧ c ∈ mask.
Proof.
  unfold face_in_mask. rewrite count_valid_filter.
  change 3 with (length [a; b; c]) at 1.
  destruct (decide _) as [Hlen|Hlen].
  - apply filter_all_length in Hlen.
    rewrite !Forall_cons in Hlen. tauto.
  - split; [done |]. intros (Ha & Hb & Hc). exfalso. apply Hlen.
    apply filter_all_length. by repeat constructor.
Qed.

(** C6. A [Texture_Renderer] constructed with a set of vertex indices
    holds a mask with one boolean for every face of the mesh file, and the
    boolean of face [i] is true if and only if the three vertex indices of
    face [i] are in the set; no call of [forward] changes the mask. *)
Theorem flame_mask_spec `{!LibrarySpec} image_size flame_path mask dev self :
  init image_size flame_path (Some mask) dev = Ok self →
  ∃ faces0 bs,
    faces self = [faces0] ∧ flame_mask self = Some bs
    ∧ length bs = length faces0
    ∧ (∀ i f, faces0 !! i = Some f →
         ∃ a b c, f = [a; b; c]
           ∧ (bs !! i = Some true ↔ a ∈ mask ∧ b ∈ mask ∧ c ∈ mask))
    ∧ (∀ vertices_world texture_images cameras m,
         flame_mask
           (forward vertices_world texture_images cameras (self, m)).2.1
         = Some bs).
Proof.
  intros Hinit. unfold init in Hinit.
  apply result_bind_Ok in Hinit as ([[v f] a] & Hload%call_Ok & Hinit).
  apply result_bind_Ok in Hinit as (uv & _ & Hinit).
  apply result_bind_Ok in Hinit as (faces0 & [= <-] & [= <-]). simpl.
  apply load_obj_triangles in Hload.
  exists (verts_idx f), (map (face_in_mask mask) (verts_idx f)).
  split; [done |]. split; [done |]. split; [by rewrite length_map |].
  split; [|done].
  intros i t Ht.
  eapply Forall_lookup_1 in Hload; [|exact Ht].
  destruct t as [|x [|y [|z [|? ?]]]]; try done.
  exists x, y, z. split; [done |].
  rewrite list_lookup_fmap, Ht. simpl.
  rewrite <- face_in_mask_triangle. split; [by intros [=] | by intros ->].
Qed.
End face_mask.

Lemma flame_mask_spec_witness :
  ∃ self bs,
    @Texture_Renderer.init Double.library 2 "flame" (Some {[0; 1; 2]}%Z) "cpu"
      = Ok self
    ∧ Texture_Renderer.flame_mask self = Some bs ∧ length bs = 2.
Proof.
  destruct (@Texture_Renderer.init Double.library 2 "flame"
              (Some {[0; 1; 2]}%Z) "cpu") as [self|e] eqn:Hinit;
    [|vm_compute in Hinit; discriminate Hinit].
  destruct (@flame_mask_spec Double.library DoubleSpec.spec _ _ _ _ _ Hinit)
    as (faces0 & bs & Hfaces & Hmask & Hlen & _).
  exists self, bs. split; [done |]. split; [done |]. rewrite Hlen.
  vm_compute in Hinit. injection Hinit as <-. by injection Hfaces as <-.
Defined.

(** ** Construction of a [Mesh_Renderer] *)

Section mesh_init.
Context `{Library}.
Import Mesh_Renderer.

Lemma init_Ok image_size obj_filename faces dev fs :
  init_faces obj_filename faces = Ok fs →
  ∃ self, init image_size obj_filename faces dev = Ok self
    ∧ Mesh_Renderer.faces self = fs
    ∧ lights self = PointLights dev [[0; 0; 3]]%Q
    ∧ device self = dev.
Proof. intros Hfs. unfold init. rewrite Hfs. simpl. eauto. Qed.

Lemma init_Raise image_size obj_filename faces dev e :
  init_faces obj_filename faces = Raise e →
  init image_size obj_filename faces dev = Raise e.
Proof. intros Hfs. unfold init. by rewrite Hfs. Qed.

(** C7, as the code has it.  The constructor raises
    [NotImplementedError] if and only if neither a mesh file nor a face
    array is given.  Given a face array and no mesh file, it returns an
    instance holding the array as 32-bit integers.  Given a mesh file, it
    returns an instance holding the triangles of the file when the loader
    returns, and raises the error of the loader when the loader fails. *)
Theorem init_raises_iff `{!LibrarySpec} image_size obj_filename faces dev :
  ((∃ msg, init image_size obj_filename faces dev
           = Raise (NotImplementedError msg))
     ↔ obj_filename = None ∧ faces = None)
  ∧ (∀ fs, obj_filename = None → faces = Some fs →
       ∃ self, init image_size obj_filename faces dev = Ok self
         ∧ Mesh_Renderer.faces self = map (map astype_int32) fs)
  ∧ (∀ path, obj_filename = Some path →
       match load_obj path with
       | Returns (v, f, a) =>
           ∃ self, init image_size obj_filename faces dev = Ok self
             ∧ Mesh_Renderer.faces self = verts_idx f
             ∧ Forall (λ r, length r = 3) (Mesh_Renderer.faces self)
       | Fails msg =>
           init image_size obj_filename faces dev = Raise (LibraryError msg)
       end).
Proof.
  split; [|split].
  - split.
    + intros [msg Hraise]. unfold init in Hraise.
      destruct obj_filename as [path|], faces as [fs|]; simpl in Hraise;
        try done; by destruct (load_obj path) as [[[v f] a]|].
    + intros [-> ->]. by eexists.
  - intros fs -> ->. destruct (init_Ok image_size None (Some fs) dev
      (map (map astype_int32) fs) eq_refl) as (self & Hinit & Hfaces & _).
    eauto.
  - intros path ->. destruct (load_obj path) as [[[v f] a]|msg] eqn:Hload.
    + destruct (init_Ok image_size (Some path) faces dev (verts_idx f))
        as (self & Hinit & Hfaces & _).
      { simpl. by rewrite Hload. }
      exists self. split; [done |]. split; [done |]. rewrite Hfaces.
      by eapply load_obj_triangles.
    + apply init_Raise. simpl. by rewrite Hload.
Qed.
End mesh_init.

(** C7 fails as stated: with a mesh file given (and a face array too), the
    constructor raises when the loader does. *)
Lemma init_raises_with_file :
  @Mesh_Renderer.init Double.library 2 (Some "missing.obj")
    (Some [[0; 1; 2]]%Z) "cpu"
  = Raise (LibraryError "No such file or directory").
Proof. reflexivity. Qed.

Lemma init_raises_iff_witness :
  ∃ self, @Mesh_Renderer.init Double.library 2 None (Some [[0; 1; 2]]%Z) "cpu"
          = Ok self
    ∧ Mesh_Renderer.faces self = [[0; 1; 2]]%Z.
Proof.
  destruct (@init_raises_iff Double.library DoubleSpec.spec 2 None
              (Some [[0; 1; 2]]%Z) "cpu") as (_ & Harray & _).
  destruct (Harray [[0; 1; 2]]%Z eq_refl eq_refl) as (self & Hinit & Hfaces).
  exists self. split; [exact Hinit | exact Hfaces].
Defined.

Lemma forward_rebuilds_camera_iff_witness :
  let s := @Point_Renderer.init Double.library 2 "cpu" Double.boot in
  let s' := (@Point_Renderer.forward Double.library [[]] 3 15 30 true None s).2 in
  heap s.2 !! Point_Renderer.cameras s.1
    = Some (@Point_Renderer.view_camera Double.library "cpu" 4 30 30)
  ∧ (Point_Renderer.cameras s'.1 ≠ Point_Renderer.cameras s.1
     ↔ ¬ sentinel_view 3 15 30).
Proof.
  intros s s'.
  assert (heap s.2 !! Point_Renderer.cameras s.1
          = Some (@Point_Renderer.view_camera Double.library "cpu" 4 30 30))
    as Hcam by reflexivity.
  split; [exact Hcam |].
  exact (proj2 (proj2 (@forward_rebuilds_camera_iff Double.library [[]] 3 15 30
                         true None s.1 s.2 _ Hcam))).
Defined.

(** ** [Point_Renderer]: what a call returns *)

Section point_calls.
Context `{Library}.
Import Point_Renderer.

Lemma build_cloud_run pts coords ex s :
  build_cloud pts coords ex s =
  match build_verts pts coords ex s with
  | (Ok verts, s1) =>
      (Ok {| points := verts; features := (rand_like verts s1.2).1 |},
       (s1.1, (rand_like verts s1.2).2))
  | (Raise e, s1) => (Raise e, s1)
  end.
Proof.
  unfold build_cloud. rewrite bind_run.
  destruct (build_verts pts coords ex s) as [[verts|e] [self m]]; [|done].
  rewrite bind_run. unfold colours. simpl.
  by destruct (rand_like verts m).
Qed.

Lemma update_cameras_Ok D E A s : (update_cameras D E A s).1 = Ok tt.
Proof.
  destruct s as [self m]. unfold update_cameras, alloc.
  by destruct (view_differs D E A).
Qed.

Lemma forward_Ok pts D E A coords ex s out :
  (forward pts D E A coords ex s).1 = Ok out →
  ∃ pc s1 cam raw,
    build_cloud pts coords ex (update_cameras D E A s).2 = (Ok pc, s1)
    ∧ heap s1.2 !! cameras s1.1 = Some cam
    ∧ PointsRenderer_call (renderer s1.1) pc cam = Returns raw
    ∧ out = FloatTensor (tensor_scale 255 (permute_0312 raw)).
Proof.
  unfold forward. rewrite bind_run.
  pose proof (update_cameras_Ok D E A s) as Hu.
  destruct (update_cameras D E A s) as [r s0]. simpl in Hu. subst r.
  rewrite bind_run. simpl.
  destruct (build_cloud pts coords ex s0) as [[pc|e] [self m]]; [|done].
  rewrite bind_run. unfold render at 1.
  destruct (heap m !! cameras self) as [cam|] eqn:Hcam; [|done].
  destruct (PointsRenderer_call (renderer self) pc cam) as [raw|msg] eqn:Hraw;
    [|done].
  simpl. intros [= <-]. by exists pc, (self, m), cam, raw.
Qed.
End point_calls.

(** ** The range of the colour images *)

Section rgb_range.
Context `{Library} `{!LibrarySpec}.

Lemma scale_255_range (x : Q) : unit_interval x → (0 <= x * 255 <= 255)%Q.
Proof. unfold unit_interval. intros [? ?]. split; lra. Qed.

Lemma ones_like_unit (t : list (list (Q * Q * Q))) :
  cloud_Forall unit_interval (ones_like t).
Proof.
  unfold cloud_Forall, ones_like.
  apply Forall_fmap, Forall_true. intros row.
  apply Forall_fmap, Forall_true. intros p.
  repeat split; unfold Qle; simpl; lia.
Qed.

Lemma draw_point_unit g : point_Forall unit_interval (draw_point g).1.
Proof.
  unfold draw_point.
  pose proof (rand_unit g) as [Hx0 Hx1]. destruct (rand g) as [x g1].
  pose proof (rand_unit g1) as [Hy0 Hy1]. destruct (rand g1) as [y g2].
  pose proof (rand_unit g2) as [Hz0 Hz1]. destruct (rand g2) as [z g3].
  simpl in *. repeat split; simpl; try done; by apply Qlt_le_weak.
Qed.

Lemma draw_row_unit {A} (row : list A) g :
  Forall (point_Forall unit_interval) (draw_row row g).1.
Proof.
  revert g. induction row as [|a row IH]; intros g; simpl; [constructor |].
  pose proof (draw_point_unit g) as Hp. destruct (draw_point g) as [p g1].
  specialize (IH g1). destruct (draw_row row g1) as [ps g2].
  by constructor.
Qed.

Lemma draw_rows_unit {A} (rows : list (list A)) g :
  cloud_Forall unit_interval (draw_rows rows g).1.
Proof.
  revert g. induction rows as [|r rows IH]; intros g; simpl; [constructor |].
  pose proof (draw_row_unit r g) as Hr. destruct (draw_row r g) as [c g1].
  specialize (IH g1). destruct (draw_rows rows g1) as [cs g2].
  by constructor.
Qed.

Lemma rand_like_unit (t : list (list (Q * Q * Q))) m :
  cloud_Forall unit_interval (rand_like t m).1.
Proof.
  unfold rand_like. pose proof (draw_rows_unit t (gen m)) as Hc.
  by destruct (draw_rows t (gen m)).
Qed.

(** C9. Every element of the colour image returned by
    [Mesh_Renderer.forward], on an instance as the constructor leaves it,
    and by [Point_Renderer.forward] lies in [[0, 255]], the renderers of the
    library keeping the colours of [[0, 1]] in [[0, 1]]. *)
Theorem rgb_range :
  (∀ image_size obj_filename faces dev self vertices cameras tm fl pp m
     images alpha,
     Mesh_Renderer.init image_size obj_filename faces dev = Ok self →
     (Mesh_Renderer.forward vertices cameras tm fl pp (self, m)).1
       = Ok (images, alpha) →
     rgb_in_range images)
  ∧ (∀ pts D E A coords ex s out,
     (Point_Renderer.forward pts D E A coords ex s).1 = Ok out →
     rgb_in_range out).
Proof.
  split.
  - intros image_size obj_filename faces dev self vertices cameras tm fl pp m
      images alpha Hinit Hf.
    apply mesh_forward_Ok in Hf as (cam & raw & _ & Hraw & -> & _).
    eexists. split; [reflexivity |].
    intros b c h w Hb Hc Hh Hw. simpl in *.
    apply scale_255_range.
    unfold Mesh_Renderer.init in Hinit.
    apply result_bind_Ok in Hinit as (fs & _ & [= <-]).
    eapply phong_unit; [| | | exact Hraw | | | |]; simpl;
      [reflexivity | reflexivity | apply ones_like_unit | done | done | done |].
    change (c < Nat.min 3 (dim3 raw)) in Hc. lia.
  - intros pts D E A coords ex s out Hf.
    apply forward_Ok in Hf as (pc & s1 & cam & raw & Hpc & _ & Hraw & ->).
    eexists. split; [reflexivity |].
    intros b c h w Hb Hc Hh Hw. simpl in *.
    apply scale_255_range.
    eapply compositing_unit; [| exact Hraw | | | |]; try done.
    rewrite build_cloud_run in Hpc.
    destruct (Point_Renderer.build_verts pts coords ex _) as [[verts|e] s2];
      [|done].
    injection Hpc as <- _. simpl. apply rand_like_unit.
Qed.
End rgb_range.

Lemma rgb_range_witness :
  match (@Point_Renderer.forward_default Double.library Samples.triangle
           (@Point_Renderer.init Double.library 2 "cpu" Double.boot)).1 with
  | Ok out => rgb_in_range out
  | Raise _ => False
  end.
Proof.
  destruct (@Point_Renderer.forward_default Double.library Samples.triangle _).1
    as [out|e] eqn:Hf; [|vm_compute in Hf; discriminate Hf].
  exact (proj2 (@rgb_range Double.library DoubleSpec.spec) _ _ _ _ _ _ _ _ Hf).
Defined.

(** ** Operations on [(B, N, 3)] tensors: their results *)

Lemma shape1_rows {A} (t : list (list A)) (n : nat) :
  Forall (λ r, length r = n) t → t ≠ [] → shape1 t = n.
Proof. intros Ht Hne. destruct t as [|r t]; [done |]. by apply Forall_cons in Ht as [? _]. Qed.

Lemma mapM_result_Ok {A B} (f : A → result B) (l : list A) (k : list B) :
  mapM f l = Ok k ↔ Forall2 (λ x y, f x = Ok y) l k.
Proof.
  revert k. induction l as [|x l IH]; intros k; simpl.
  - split; [intros [= <-]; constructor | by intros ->%Forall2_nil_inv_l].
  - split.
    + intros (y & Hy & Hrest)%result_bind_Ok.
      apply result_bind_Ok in Hrest as (k' & Hk' & [= <-]).
      constructor; [done | by apply IH].
    + intros (y & k' & Hy & Hk' & ->)%Forall2_cons_inv_l.
      apply result_bind_Ok. exists y. split; [done |].
      apply result_bind_Ok. exists k'. split; [by apply IH | done].
Qed.

Lemma index_select_Ok {A} (idx : list nat) (row sub : list A) :
  index_select idx row = Ok sub ↔ Forall2 (λ i x, row !! i = Some x) idx sub.
Proof.
  unfold index_select. rewrite mapM_result_Ok.
  split; intros HF; (eapply Forall2_impl; [exact HF |]);
    intros i x; simpl; destruct (row !! i); congruence.
Qed.

Lemma index_select_total {A} (idx : list nat) (row : list A) :
  Forall (λ i, i < length row) idx →
  ∃ sub, index_select idx row = Ok sub.
Proof.
  intros Hidx. induction Hidx as [|i idx Hi _ [sub Hsub]].
  - by exists [].
  - destruct (lookup_lt_is_Some_2 row i Hi) as [x Hx].
    exists (x :: sub). apply index_select_Ok. constructor; [done |].
    by apply index_select_Ok.
Qed.

Lemma expand_Ok {A} (b : nat) (t e : list (list A)) :
  expand b t = Ok e ↔
  (∃ r, t = [r] ∧ e = replicate b r) ∨ (length t ≠ 1 ∧ length t = b ∧ e = t).
Proof.
  unfold expand. destruct t as [|r [|r' t]].
  - case_decide; split.
    + intros [= <-]. right. done.
    + intros [(r & ? & _)|(_ & _ & ->)]; done.
    + done.
    + intros [(r & ? & _)|(_ & ? & _)]; done.
  - split.
    + intros [= <-]. left. eauto.
    + intros [(r0 & [= <-] & ->)|(? & _)]; done.
  - case_decide; split.
    + intros [= <-]. right. done.
    + intros [(r0 & ? & _)|(_ & _ & ->)]; done.
    + done.
    + intros [(r0 & ? & _)|(_ & ? & _)]; done.
Qed.

Lemma cat1_replicate {A} (t : list (list A)) (a : list A) :
  cat1 t (replicate (length t) a) = map (λ r, r ++ a) t.
Proof. unfold cat1. induction t as [|r t IH]; simpl; [done | by rewrite IH]. Qed.

Lemma cat1_lookup {A} (s t : list (list A)) (b : nat) :
  cat1 s t !! b = r ← s !! b; e ← t !! b; Some (r ++ e).
Proof. apply lookup_zip_with. Qed.

Lemma cat1_length {A} (s t : list (list A)) :
  length s = length t → length (cat1 s t) = length s.
Proof. intros Hlen. unfold cat1. rewrite length_zip_with. lia. Qed.

(** ** The reference axes *)

Lemma linspace_length start stop n : length (linspace start stop n) = n.
Proof.
  unfold linspace. case_decide; [by subst |]. by rewrite length_map, length_seq.
Qed.

Lemma linspace_lookup n i x :
  linspace 0 1 n !! i = Some x → i < n ∧ (x == even_step n i)%Q.
Proof.
  unfold linspace, even_step. case_decide as Hn.
  - subst n. destruct i as [|i]; [|done]. intros [= <-]. split; [lia |].
    simpl. unfold Qdiv. by rewrite Qmult_0_l.
  - rewrite list_lookup_fmap. intros Hx.
    destruct (seq 0 n !! i) as [j|] eqn:Hj; [|done].
    apply lookup_seq in Hj as [-> Hi]. injection Hx as <-.
    split; [done |]. simpl. unfold Qdiv. ring.
Qed.

Lemma even_step_unit n i : i < n → unit_interval (even_step n i).
Proof.
  intros Hi. unfold even_step, unit_interval.
  destruct (decide (n = 1)) as [->|Hn].
  - assert (i = 0) as -> by lia. simpl. unfold Qdiv. rewrite Qmult_0_l.
    split; unfold Qle; simpl; lia.
  - assert (0 < inject_Z (Z.of_nat (n - 1)))%Q as Hpos.
    { change 0%Q with (inject_Z 0). rewrite <- Zlt_Qlt. lia. }
    split.
    + apply Qle_shift_div_l; [done |]. rewrite Qmult_0_l.
      change 0%Q with (inject_Z 0). rewrite <- Zle_Qle. lia.
    + apply Qle_shift_div_r; [done |]. rewrite Qmult_1_l.
      rewrite <- Zle_Qle. lia.
Qed.

Lemma axis_points_length n : length (axis_points n) = 3 * n.
Proof.
  unfold axis_points. rewrite !length_app, !length_map, linspace_length. lia.
Qed.

Lemma axes_axis_points `{Library} n : Point_Renderer.axes n = axis_points n.
Proof.
  unfold Point_Renderer.axes, axis_points, assign_column, new_zeros.
  pose proof (linspace_length 0 1 n) as Hlen.
  set (li := linspace 0 1 n) in *.
  apply list_eq. intros i. rewrite !list_lookup_imap.
  destruct (decide (i < n * 3)) as [Hi|Hi].
  - rewrite lookup_replicate_2 by done. simpl.
    destruct (decide (i < n)) as [H1|H1].
    + rewrite lookup_app_l by (rewrite length_map; lia).
      rewrite list_lookup_fmap, Nat.sub_0_r.
      destruct (lookup_lt_is_Some_2 li i) as [x Hx]; [lia |]. rewrite Hx.
      repeat case_decide; try lia. done.
    + rewrite lookup_app_r by (rewrite length_map; lia).
      rewrite length_map, Hlen.
      destruct (decide (i < n * 2)) as [H2|H2].
      * rewrite lookup_app_l by (rewrite length_map; lia).
        rewrite list_lookup_fmap.
        destruct (lookup_lt_is_Some_2 li (i - n)) as [x Hx]; [lia |].
        rewrite Hx. repeat case_decide; try lia. done.
      * rewrite lookup_app_r by (rewrite length_map; lia).
        rewrite length_map, Hlen, list_lookup_fmap.
        replace (i - n - n) with (i - n * 2) by lia.
        destruct (lookup_lt_is_Some_2 li (i - n * 2)) as [x Hx]; [lia |].
        rewrite Hx. repeat case_decide; try lia. done.
  - rewrite (lookup_ge_None_2 (replicate _ _)) by (rewrite length_replicate; lia).
    symmetry. apply lookup_ge_None_2.
    rewrite !length_app, !length_map, Hlen. lia.
Qed.

(** ** The point cloud of [Point_Renderer.forward] *)

Section point_cloud.
Context `{Library} `{!LibrarySpec}.
Import Point_Renderer.

Lemma sample_indices_spec pts m :
  length (sample_indices pts m) = Nat.min max_points (shape1 pts)
  ∧ NoDup (sample_indices pts m)
  ∧ Forall (λ i, i < shape1 pts) (sample_indices pts m).
Proof.
  unfold sample_indices.
  pose proof (randperm_permutation (shape1 pts) (gen m)) as Hperm.
  set (perm := (randperm (shape1 pts) (gen m)).1) in *.
  split; [|split].
  - rewrite length_take, Hperm, length_seq. done.
  - eapply sublist_NoDup; [|apply sublist_take].
    rewrite Hperm. apply NoDup_seq.
  - apply Forall_take. rewrite Hperm. apply Forall_seq. lia.
Qed.

Lemma mapM_result_total {A B} (f : A → result B) (l : list A) :
  Forall (λ x, ∃ y, f x = Ok y) l → ∃ k, mapM f l = Ok k.
Proof.
  intros Hl. induction Hl as [|x l [y Hy] _ [k Hk]].
  - by exists [].
  - exists (y :: k). apply mapM_result_Ok. constructor; [done |].
    by apply mapM_result_Ok.
Qed.

Lemma subsample_run pts self m :
  rectangular pts →
  ∃ subs m',
    subsample pts (self, m) = (Ok subs, (self, m'))
    ∧ heap m' = heap m
    ∧ Forall2 (λ src sub,
        Forall2 (λ i x, src !! i = Some x) (sample_indices pts m) sub)
        pts subs.
Proof.
  intros Hrect. unfold subsample, draw_randperm.
  destruct (sample_indices_spec pts m) as (_ & _ & Hidx).
  unfold sample_indices in *.
  destruct (randperm (shape1 pts) (gen m)) as [perm g]. simpl in *.
  destruct (mapM_result_total (index_select (take max_points perm)) pts)
    as [subs Hsubs].
  { eapply Forall_impl; [exact Hrect |]. intros row Hrow. simpl in Hrow.
    apply index_select_total. by rewrite Hrow. }
  exists subs, (Machine _ (heap m) g). rewrite Hsubs.
  split; [done |]. split; [done |].
  apply mapM_result_Ok in Hsubs.
  eapply Forall2_impl; [exact Hsubs |].
  intros src sub Hsel. by apply index_select_Ok.
Qed.

Lemma extra_rows_spec ex b :
  broadcasts ex b →
  length (extra_rows ex b) = b
  ∧ Forall (λ e, length e = extra_count ex) (extra_rows ex b)
  ∧ match ex with
    | Some e => expand b e = Ok (extra_rows ex b)
    | None => True
    end.
Proof.
  destruct ex as [e|]; simpl.
  - intros [Hrect Hlen]. destruct e as [|r [|r' e]]; simpl in *.
    + destruct Hlen as [?|<-]; [done |]. split; [done |]. split; [done |].
      unfold expand. simpl. done.
    + rewrite length_replicate. split; [done |].
      split; [by apply Forall_replicate | done].
    + destruct Hlen as [?|<-]; [done |]. split; [done |].
      split; [exact Hrect |]. unfold expand. simpl. by case_decide.
  - intros _. rewrite length_replicate. split; [done |].
    split; [by apply Forall_replicate | done].
Qed.

Lemma append_ex_points_run ex subs s :
  broadcasts ex (length subs) →
  append_ex_points ex subs s = (Ok (cat1 subs (extra_rows ex (length subs))), s).
Proof.
  intros Hex. destruct (extra_rows_spec ex (length subs) Hex) as (_ & _ & Hexp).
  destruct ex as [e|]; simpl.
  - rewrite bind_run. unfold lift_result, shape0. by rewrite Hexp.
  - rewrite cat1_replicate. unfold mret, prog_ret. f_equal. f_equal.
    induction subs as [|r subs IH]; simpl; [done |].
    by rewrite app_nil_r, <- IH.
Qed.

Lemma append_coords_rows coords verts k :
  Forall (λ r, length r = k) verts →
  append_coords coords verts =
  map (λ r, r ++ if coords then axis_points (k / 10) else []) verts.
Proof.
  intros Hrows. unfold append_coords. destruct coords.
  - unfold shape0. rewrite cat1_replicate, axes_axis_points.
    destruct verts as [|r verts]; [done |].
    by rewrite (shape1_rows (r :: verts) k).
  - induction verts as [|r verts IH]; simpl; [done |].
    apply Forall_cons in Hrows as [_ Hrows]. by rewrite app_nil_r, <- IH.
Qed.

(** The points of the cloud, batch element by batch element. *)
Lemma build_verts_run pts (coords : bool) ex self m :
  rectangular pts →
  broadcasts ex (length pts) →
  let idx := sample_indices pts m in
  let k := Nat.min max_points (shape1 pts) + extra_count ex in
  let tail := if coords then axis_points (k / 10) else [] in
  ∃ verts m',
    build_verts pts coords ex (self, m) = (Ok verts, (self, m'))
    ∧ heap m' = heap m
    ∧ length verts = length pts
    ∧ ∀ b src, pts !! b = Some src →
        ∃ sub e,
          Forall2 (λ i x, src !! i = Some x) idx sub
          ∧ extra_rows ex (length pts) !! b = Some e
          ∧ length e = extra_count ex
          ∧ verts !! b = Some (sub ++ e ++ tail).
Proof.
  intros Hrect Hex idx k tail.
  destruct (subsample_run pts self m Hrect) as (subs & m' & Hsub & Hheap & Hsel).
  pose proof (Forall2_length _ _ _ Hsel) as Hlen.
  rewrite Hlen in Hex.
  destruct (extra_rows_spec ex (length subs) Hex) as (Hxlen & Hxrows & _).
  destruct (sample_indices_spec pts m) as (Hidx & _ & _). fold idx in Hidx, Hsel.
  assert (Forall (λ r, length r = k) (cat1 subs (extra_rows ex (length subs))))
    as Hrows.
  { apply Forall_lookup. intros b r. rewrite cat1_lookup. intros Hr.
    destruct (subs !! b) as [sub|] eqn:Hsb; [|done]. simpl in Hr.
    destruct (extra_rows ex (length subs) !! b) as [e|] eqn:Heb; [|done].
    injection Hr as <-. rewrite length_app.
    eapply Forall_lookup_1 in Hxrows; [|exact Heb]. simpl in Hxrows.
    destruct (Forall2_lookup_r _ _ _ _ _ Hsel Hsb) as (src & _ & Hss).
    apply Forall2_length in Hss. subst k. lia. }
  eexists _, m'. split; [|split; [exact Hheap | split]].
  - unfold build_verts. rewrite bind_run, Hsub, bind_run.
    rewrite (append_ex_points_run ex subs _ Hex).
    rewrite (append_coords_rows coords _ k Hrows). reflexivity.
  - by rewrite length_map, cat1_length.
  - intros b src Hsrc.
    destruct (Forall2_lookup_l _ _ _ _ _ Hsel Hsrc) as (sub & Hsb & Hss).
    destruct (lookup_lt_is_Some_2 (extra_rows ex (length subs)) b) as [e Heb].
    { rewrite Hxlen, <- Hlen. by eapply lookup_lt_Some. }
    exists sub, e. split; [done |]. rewrite Hlen. split; [done |].
    split; [by eapply Forall_lookup_1 in Hxrows |].
    rewrite list_lookup_fmap, cat1_lookup, Hsb, Heb. simpl.
    by rewrite <- app_assoc.
Qed.
End point_cloud.

Section point_cloud_count.
Context `{Library} `{!LibrarySpec}.
Import Point_Renderer.

Lemma update_cameras_gen D E A self m :
  let s1 := (update_cameras D E A (self, m)).2 in
  gen s1.2 = gen m ∧ renderer s1.1 = renderer self
  ∧ (is_Some (heap m !! cameras self) → is_Some (heap s1.2 !! cameras s1.1)).
Proof.
  destruct (view_differs D E A) eqn:Hv.
  - rewrite update_cameras_rebuild by done. simpl.
    split; [done |]. split; [done |]. intros _. rewrite lookup_insert_eq. eauto.
  - rewrite update_cameras_reuse by done. done.
Qed.

(** C4. A call of [Point_Renderer.forward] on a batch of point sets of [N]
    points each hands the renderer a cloud whose batch element [b] is, in
    this order: the points of the input element [b] at the first
    [min(10000, N)] indices of one random permutation of [0..N-1], the same
    indices for every batch element; the extra points of element [b], when
    [ex_points] is given; and, when [coords] is set, the points of three
    axes, each of one tenth (rounded down) of the number of points so far,
    evenly spaced from 0 to 1 along one coordinate. *)
Theorem point_cloud_count pts D E A (coords : bool) ex self m :
  rectangular pts →
  broadcasts ex (length pts) →
  is_Some (heap m !! cameras self) →
  let idx := take max_points (randperm (shape1 pts) (gen m)).1 in
  let k := Nat.min max_points (shape1 pts) + extra_count ex in
  let n := k / 10 in
  let tail := if coords then axis_points n else [] in
  ∃ pc s1 s2 cam,
    s1 = (update_cameras D E A (self, m)).2
    ∧ build_cloud pts coords ex s1 = (Ok pc, s2)
    ∧ forward pts D E A coords ex (self, m) =
        ((λ raw, FloatTensor (tensor_scale 255 (permute_0312 raw)))
           <$> call (PointsRenderer_call (renderer self) pc cam), s2)
    ∧ length idx = Nat.min max_points (shape1 pts)
    ∧ NoDup idx
    ∧ Forall (λ i, i < shape1 pts) idx
    ∧ length (points pc) = length pts
    ∧ (∀ b src, pts !! b = Some src →
         ∃ sub e,
           Forall2 (λ i x, src !! i = Some x) idx sub
           ∧ extra_rows ex (length pts) !! b = Some e
           ∧ length e = extra_count ex
           ∧ points pc !! b = Some (sub ++ e ++ tail)
           ∧ length (sub ++ e ++ tail) = k + (if coords then 3 * n else 0))
    ∧ axis_points n =
        map (λ x, (x, 0, 0))%Q (linspace 0 1 n)
          ++ map (λ x, (0, x, 0))%Q (linspace 0 1 n)
          ++ map (λ x, (0, 0, x))%Q (linspace 0 1 n)
    ∧ length (linspace 0 1 n) = n
    ∧ (∀ i x, linspace 0 1 n !! i = Some x →
         (x == even_step n i)%Q ∧ unit_interval x).
Proof.
  intros Hrect Hex Hcam idx k n tail.
  set (s1 := (update_cameras D E A (self, m)).2).
  destruct (update_cameras_gen D E A self m) as (Hgen & Hren & Hcam1).
  fold s1 in Hgen, Hren, Hcam1. destruct (Hcam1 Hcam) as [cam Hcam'].
  destruct s1 as [self1 m1] eqn:Hs1. simpl in Hgen, Hren, Hcam'.
  destruct (build_verts_run pts coords ex self1 m1 Hrect Hex)
    as (verts & m2 & Hverts & Hheap & Hlen & Hrowsb).
  assert (sample_indices pts m1 = idx) as Hidx.
  { unfold sample_indices. by rewrite Hgen. }
  rewrite Hidx in Hrowsb.
  destruct (sample_indices_spec pts m1) as (Hn & Hnd & Hlt).
  rewrite Hidx in Hn, Hnd, Hlt.
  pose proof (build_cloud_run pts coords ex (self1, m1)) as Hpc.
  rewrite Hverts in Hpc. simpl in Hpc.
  eexists _, (self1, m1), _, cam.
  split; [done |]. split; [exact Hpc |].
  split; [|split; [done | split; [done | split; [done | split; [done |]]]]].
  - rewrite (forward_renders_with pts D E A coords ex (self, m) cam).
    + fold s1. rewrite Hs1. unfold forward_tail. rewrite bind_run, Hpc.
      rewrite bind_run. unfold render_with. simpl. rewrite Hren.
      by destruct (PointsRenderer_call _ _ _).
    + fold s1. by rewrite Hs1.
  - split; [|split; [done | split; [apply linspace_length |]]].
    + intros b src Hsrc.
      destruct (Hrowsb b src Hsrc) as (sub & e & Hsel & He & Helen & Hrow).
      exists sub, e. repeat (split; [done |]).
      rewrite !length_app, Helen, <- (Forall2_length _ _ _ Hsel), Hn.
      subst tail k. destruct coords; [rewrite axis_points_length|]; simpl; lia.
    + intros i x Hx. apply linspace_lookup in Hx as [Hi Hx].
      split; [done |]. unfold unit_interval. rewrite Hx.
      by apply even_step_unit.
Qed.
End point_cloud_count.

Lemma point_cloud_count_witness :
  let s := @Point_Renderer.init Double.library 2 "cpu" Double.boot in
  ∃ pc s2,
    @Point_Renderer.build_cloud Double.library Samples.line true
      (Some [[(9, 9, 9)%Q]])
      (@Point_Renderer.update_cameras Double.library 3 15 30 s).2 = (Ok pc, s2)
    ∧ ∃ row, points pc !! 0 = Some row ∧ length row = 32.
Proof.
  intros s.
  destruct (@point_cloud_count Double.library DoubleSpec.spec Samples.line
              3 15 30 true (Some [[(9, 9, 9)%Q]]) s.1 s.2)
    as (pc & s1 & s2 & cam & -> & Hpc & _ & _ & _ & _ & _ & Hrows & _).
  - by repeat constructor.
  - split; [by repeat constructor | by left].
  - by eexists.
  - exists pc, s2. split; [exact Hpc |].
    destruct (Hrows 0 _ eq_refl) as (sub & e & _ & _ & _ & Hrow & Hlen).
    eexists. split; [exact Hrow | exact Hlen].
Defined.

(** ** Randomness *)

Section randomness.
Context `{Library}.
Import Point_Renderer.





End randomness.


(** On a cloud with points the two images differ in the test double. *)
Example random_colours_differ :
  let s := @Point_Renderer.init Double.library 2 "cpu" Double.boot in
  let r1 := @Point_Renderer.forward_default Double.library Samples.triangle s in
  let r2 :=
    @Point_Renderer.forward_default Double.library Samples.triangle r1.2 in
  match r1.1, r2.1 with
  | Ok (FloatTensor t1), Ok (FloatTensor t2) =>
      ¬ (elt t1 0 0 0 0 == elt t2 0 0 0 0)%Q
  | _, _ => False
  end.
Proof. vm_compute. done. Qed.


Lemma forward_default_rebuilds_witness :
  let s := @Point_Renderer.init Double.library 2 "cpu" Double.boot in
  let r := @Point_Renderer.forward_default Double.library Samples.triangle s in
  Point_Renderer.cameras r.2.1 ≠ Point_Renderer.cameras s.1.
Proof.
  intros s.
  exact (proj1 (proj2 (proj2 (@forward_default_rebuilds Double.library 2 "cpu"
                                Double.boot s Samples.triangle
                                (reachable_init _))))).
Defined.

(** * Further properties *)

(** ** [Mesh_Renderer._build_cameras] *)









Section build_cameras.
Context `{Library}.
Import Mesh_Renderer.






End build_cameras.



(** ** [Mesh_Renderer.forward]: errors and layout *)

Section mesh_forward.
Context `{Library}.
Import Mesh_Renderer.


End mesh_forward.


(** ** [Texture_Renderer.__init__]: the file and the errors *)

Lemma last_char_append (a b : string) :
  b ≠ "" →
  String.substring (String.length (a +:+ b) - 1) 1 (a +:+ b)
  = String.substring (String.length b - 1) 1 b.
Proof.
  intros Hb. induction a as [|c a IH]; [done |].
  change (String c a +:+ b) with (String c (a +:+ b)).
  cbn [String.length]. rewrite Nat.sub_1_r. cbn [Nat.pred].
  destruct (String.length (a +:+ b)) as [|k] eqn:Hlen.
  - destruct a; [|done]. destruct b; done.
  - rewrite <- IH. simpl. by rewrite Nat.sub_0_r.
Qed.

Lemma path_join_no_slash (a b : string) :
  a ≠ "" →
  String.substring (String.length a - 1) 1 a ≠ "/" →
  path_join a b = a +:+ "/" +:+ b.
Proof.
  intros Ha Hlast. unfold path_join. case_decide; [done |].
  destruct (String.eqb_spec (String.substring (String.length a - 1) 1 a) "/");
    done.
Qed.

(** The three forms of [os.path.join(p, 'FLAME_embedding')]. *)
Lemma path_join_cases (p b : string) :
  (p = "" ∧ path_join p b = b)
  ∨ (p ≠ "" ∧ String.substring (String.length p - 1) 1 p = "/"
     ∧ path_join p b = p +:+ b)
  ∨ (p ≠ "" ∧ String.substring (String.length p - 1) 1 p ≠ "/"
     ∧ path_join p b = p +:+ "/" +:+ b).
Proof.
  unfold path_join. case_decide; [by left |]. right.
  destruct (String.eqb_spec (String.substring (String.length p - 1) 1 p) "/");
    [left | right]; done.
Qed.

Lemma append_nonempty (a b : string) : b ≠ "" → a +:+ b ≠ "".
Proof. intros Hb. destruct a; [done |]. done. Qed.

Lemma template_path (p : string) :
  path_join (path_join p "FLAME_embedding") "head_template_mesh.obj"
  = path_join p "FLAME_embedding" +:+ "/head_template_mesh.obj".
Proof.
  assert (path_join p "FLAME_embedding" ≠ ""
          ∧ String.substring
              (String.length (path_join p "FLAME_embedding") - 1) 1
              (path_join p "FLAME_embedding") ≠ "/") as [Hne Hlast].
  { destruct (path_join_cases p "FLAME_embedding")
      as [[_ ->]|[(_ & _ & ->)|(_ & _ & ->)]].
    - done.
    - split; [by apply append_nonempty |]. by rewrite last_char_append.
    - split; [by apply append_nonempty |].
      change (p +:+ "/" +:+ "FLAME_embedding")
        with (p +:+ "/FLAME_embedding").
      by rewrite last_char_append. }
  by apply path_join_no_slash.
Qed.

Section texture_init.
Context `{Library}.
Import Texture_Renderer.

(** X4. [Texture_Renderer.__init__] reads the file
    [FLAME_embedding/head_template_mesh.obj] under [flame_path], with one
    slash between [flame_path] and that name whether or not [flame_path]
    ends with a slash, and relative to the working directory when
    [flame_path] is empty.  It raises the error of the loader when the
    loader fails and [TypeError] when the file has no texture coordinates;
    otherwise it returns the instance holding the vertex faces, the
    texture faces and the texture coordinates of the file, each as a batch
    of one, whatever the mask. *)
Theorem texture_init_cases image_size flame_path mask_set dev :
  let dir := path_join flame_path "FLAME_embedding" in
  let obj_filename := dir +:+ "/head_template_mesh.obj" in
  ((flame_path = "" ∧ dir = "FLAME_embedding")
   ∨ (flame_path ≠ "" ∧ dir = flame_path +:+ "FLAME_embedding"
      ∧ String.substring (String.length flame_path - 1) 1 flame_path = "/")
   ∨ (flame_path ≠ "" ∧ dir = flame_path +:+ "/FLAME_embedding"
      ∧ String.substring (String.length flame_path - 1) 1 flame_path ≠ "/"))
  ∧ match load_obj obj_filename with
    | Fails msg =>
        init image_size flame_path mask_set dev = Raise (LibraryError msg)
    | Returns (_, f, aux) =>
        match aux_verts_uvs aux with
        | None =>
            ∃ msg, init image_size flame_path mask_set dev
                   = Raise (TypeError msg)
        | Some uvs =>
            ∃ self,
              init image_size flame_path mask_set dev = Ok self
              ∧ faces self = [verts_idx f]
              ∧ uvfaces self = [textures_idx f]
              ∧ uvverts self = [uvs]
              ∧ device self = dev
              ∧ flame_mask self = reduced_faces mask_set (verts_idx f)
        end
    end.
Proof.
  intros dir obj_filename. split.
  - subst dir. destruct (path_join_cases flame_path "FLAME_embedding")
      as [[? ?]|[(? & ? & ?)|(? & ? & ?)]]; auto.
  - unfold init. rewrite template_path. fold dir. fold obj_filename.
    destruct (load_obj obj_filename) as [[[v f] aux]|msg]; simpl; [|done].
    destruct (aux_verts_uvs aux) as [uvs|]; simpl; eauto 10.
Qed.
End texture_init.

(** ** [Texture_Renderer.forward]: broadcasting, the silhouette mesh and
    the layout of the outputs *)

Lemma Qgtb_lt (x y : Q) : Qgtb x y = true ↔ (y < x)%Q.
Proof.
  unfold Qgtb. rewrite negb_true_iff. split.
  - intros Hle. apply Qnot_le_lt. intros Hxy%Qle_bool_iff. congruence.
  - intros Hlt. destruct (Qle_bool x y) eqn:Hle; [|done].
    apply Qle_bool_iff in Hle. by apply Qlt_not_le in Hlt.
Qed.

Lemma mask_rows_fmap {A} (p : A → bool) (rows : list A) :
  mask_rows (map p rows) rows = Ok (filter (λ x, p x = true) rows).
Proof.
  unfold mask_rows. rewrite length_map. case_decide; [|done]. f_equal.
  induction rows as [|x rows IH]; [done |].
  change (zip (map p (x :: rows)) (x :: rows))
    with ((p x, x) :: zip (map p rows) rows).
  rewrite !filter_cons. simpl.
  destruct (decide (p x = true)); [rewrite fmap_cons |]; by rewrite IH.
Qed.

Section texture_forward.
Context `{Library}.
Import Texture_Renderer.

Lemma texture_init_Ok image_size flame_path mask_set dev self :
  init image_size flame_path mask_set dev = Ok self →
  ∃ fs tfs uvs,
    faces self = [fs] ∧ uvfaces self = [tfs] ∧ uvverts self = [uvs]
    ∧ Texture_Renderer.flame_mask self = reduced_faces mask_set fs
    ∧ ∃ v aux, load_obj
                 (path_join (path_join flame_path "FLAME_embedding")
                    "head_template_mesh.obj")
               = Returns (v, {| verts_idx := fs; textures_idx := tfs |}, aux).
Proof.
  unfold init.
  intros ([[v [fs tfs]] aux] & Hload%call_Ok & Hrest)%result_bind_Ok.
  apply result_bind_Ok in Hrest as (uv & Huv & Hrest).
  apply result_bind_Ok in Hrest as (faces0 & [= <-] & [= <-]). simpl.
  destruct (aux_verts_uvs aux) as [uvs|]; [|done]. injection Huv as <-.
  exists fs, tfs, uvs. eauto 10.
Qed.


(** X6. On an instance constructed with a set of vertex indices, the
    silhouette pass renders, for every batch element, the faces of the
    file whose vertex indices are all in the set, in the order of the
    file, with white vertex colours; it raises nothing but the error of
    the renderer. *)
Theorem silhouette_submesh `{!LibrarySpec} image_size flame_path mask_set dev
    self vertices_world cameras :
  init image_size flame_path (Some mask_set) dev = Ok self →
  ∃ fs,
    faces self = [fs]
    ∧ expand (length vertices_world) (faces self)
      = Ok (replicate (length vertices_world) fs)
    ∧ masked_silhouette self vertices_world
        (replicate (length vertices_world) fs) cameras
      = (λ raw, Some (BoolTensor
                        (tensor_gt 0 (permute_0312 (slice3_from 3 raw)))))
        <$> call (MeshRenderer_call
                    {| mesh_rasterizer :=
                         {| mr_cameras := cameras;
                            mr_raster_settings := raster_settings self |};
                       mesh_shader := SoftSilhouetteShader |}
                    {| mesh_verts := vertices_world;
                       mesh_faces :=
                         replicate (length vertices_world)
                           (filter (λ f, Forall (λ v, v ∈ mask_set) f) fs);
                       mesh_textures :=
                         TexturesVertex (ones_like vertices_world) |}).
Proof.
  intros Hinit.
  destruct (texture_init_Ok _ _ _ _ _ Hinit)
    as (fs & tfs & uvs & Hf & _ & _ & Hmask & v & aux & Hload).
  apply load_obj_triangles in Hload. simpl in Hload.
  exists fs. split; [done |]. split; [by rewrite Hf |].
  unfold masked_silhouette. rewrite Hmask. simpl.
  assert (mapM (mask_rows (map (face_in_mask mask_set) fs))
            (replicate (length vertices_world) fs)
          = Ok (replicate (length vertices_world)
                  (filter (λ f, Forall (λ v, v ∈ mask_set) f) fs))) as ->.
  { apply mapM_result_Ok, Forall2_lookup. intros i.
    destruct (decide (i < length vertices_world)) as [Hi|Hi].
    - rewrite !lookup_replicate_2 by done. constructor.
      rewrite (mask_rows_fmap (face_in_mask mask_set) fs). f_equal.
      clear -Hload. induction Hload as [|f fs Hlen _ IH]; [done |].
      rewrite !filter_cons, IH.
      destruct f as [|a [|b [|c [|? ?]]]]; try done.
      pose proof (face_in_mask_triangle mask_set a b c) as Htri.
      destruct (decide (face_in_mask mask_set [a; b; c] = true)) as [Ht|Ht];
        destruct (decide (Forall (λ v, v ∈ mask_set) [a; b; c])) as [Hall|Hall];
        try done.
      + exfalso. apply Hall. apply Htri in Ht as (? & ? & ?).
        by repeat constructor.
      + exfalso. apply Ht, Htri. rewrite !Forall_cons in Hall. tauto.
    - rewrite !(proj1 (lookup_replicate_None _ _ _)) by lia. constructor. }
  simpl. by destruct (MeshRenderer_call _ _).
Qed.

(** X7. The layout of the outputs of [Texture_Renderer.forward], for an
    image of shape [(B, H, W, C)] returned by the Phong renderer: the
    colour image has shape [(B, min(3, C), H, W)] and holds the first
    three channels unscaled; the mask has shape [(B, C - 3, H, W)] and is
    true exactly where the channel after the third is positive. *)
Theorem texture_forward_layout vertices_world texture_images cameras self m
    images masks_all masks_face :
  (forward vertices_world texture_images cameras (self, m)).1
    = Ok (images, masks_all, masks_face) →
  ∃ renderer meshes raw img mask,
    texture_scene self vertices_world texture_images cameras
      = Ok (renderer, meshes)
    ∧ MeshRenderer_call renderer meshes = Returns raw
    ∧ images = FloatTensor img ∧ masks_all = BoolTensor mask
    ∧ dims img = (dim0 raw, Nat.min 3 (dim3 raw), dim1 raw, dim2 raw)
    ∧ dims mask = (dim0 raw, dim3 raw - 3, dim1 raw, dim2 raw)
    ∧ (∀ b c h w, elt img b c h w = elt raw b h w c)
    ∧ (∀ b c h w, elt mask b c h w = true ↔ (0 < elt raw b h w (3 + c))%Q).
Proof.
  intros (renderer & meshes & raw & Hscene & Hraw & -> & -> & _)%texture_forward_Ok.
  eexists renderer, meshes, raw, _, _. split; [done |]. split; [done |].
  split; [reflexivity |]. split; [reflexivity |].
  split; [done |]. split; [done |]. split; [done |].
  intros b c h w. simpl. apply Qgtb_lt.
Qed.
End texture_forward.


Lemma silhouette_submesh_witness :
  ∃ self fs,
    @Texture_Renderer.init Double.library 2 "flame" (Some {[0; 1; 2]}%Z) "cpu"
      = Ok self
    ∧ Texture_Renderer.faces self = [fs].
Proof.
  destruct (@Texture_Renderer.init Double.library 2 "flame"
              (Some {[0; 1; 2]}%Z) "cpu") as [self|e] eqn:Hinit;
    [|vm_compute in Hinit; discriminate Hinit].
  destruct (@silhouette_submesh Double.library DoubleSpec.spec _ _ _ _ _
              Samples.quad_verts Samples.camera Hinit) as (fs & Hfs & _).
  by exists self, fs.
Defined.

Lemma texture_forward_layout_witness :
  match Samples.texture_call None with
  | inl (Ok (FloatTensor img, BoolTensor mask, _), _) =>
      dims img = (1, 3, 2, 2) ∧ dims mask = (1, 1, 2, 2)
  | _ => False
  end.
Proof.
  destruct (Samples.texture_call None)
    as [[[[[images masks_all] masks_face]|e] s]|e] eqn:Hcall;
    try (vm_compute in Hcall; discriminate Hcall).
  unfold Samples.texture_call in Hcall.
  destruct (Texture_Renderer.init _ _ _ _) as [self|e] eqn:Hinit; [|discriminate].
  apply (f_equal (λ x, match x with inl p => p.1 | inr e => Raise e end))
    in Hcall.
  destruct (@texture_forward_layout Double.library _ _ _ _ _ _ _ _ Hcall)
    as (renderer & meshes & raw & img & mask & Hscene & Hraw & -> & -> & Himg
        & Hmask & _).
  rewrite Himg, Hmask. injection Hraw as <-.
  vm_compute in Hinit. injection Hinit as <-.
  vm_compute in Hscene. injection Hscene as <- <-. done.
Defined.

(** ** The face mask: extremes and growth *)

Section face_mask_order.
Import Texture_Renderer.

Lemma face_in_mask_disjoint (mask : gset Z) (f : list Z) :
  (∀ v, v ∈ f → v ∉ mask) → face_in_mask mask f = false.
Proof.
  intros Hdisj. unfold face_in_mask.
  destruct (decide _) as [Hc|]; [|done]. exfalso.
  rewrite count_valid_filter in Hc.
  destruct (filter (λ v, v ∈ mask) f) as [|z zs] eqn:Hfil; [done |].
  assert (z ∈ filter (λ v, v ∈ mask) f) as Hz by (rewrite Hfil; left).
  apply list_elem_of_filter in Hz as [Hz Hf]. by apply (Hdisj z).
Qed.

Lemma face_in_mask_empty (f : list Z) : face_in_mask ∅ f = false.
Proof. apply face_in_mask_disjoint. set_solver. Qed.

(** X8. The face mask at its extremes and under growth of the set.  With
    the empty set every face is masked out; with a set holding every
    vertex index of the triangles every face is kept; and for triangles,
    a face kept for a set is kept for every larger set. *)
Theorem reduced_faces_order (S S' : gset Z) (fs : list (list Z)) :
  Forall (λ f, length f = 3) fs →
  reduced_faces (Some ∅) fs = Some (replicate (length fs) false)
  ∧ (Forall (Forall (λ v, v ∈ S)) fs →
     reduced_faces (Some S) fs = Some (replicate (length fs) true))
  ∧ (S ⊆ S' →
     ∃ bs bs',
       reduced_faces (Some S) fs = Some bs
       ∧ reduced_faces (Some S') fs = Some bs'
       ∧ Forall2 (λ b b', b = true → b' = true) bs bs').
Proof.
  intros Htri. unfold reduced_faces. split; [|split].
  - f_equal. clear Htri. induction fs as [|f fs IH]; [done |].
    simpl. by rewrite face_in_mask_empty, IH.
  - intros Hall. f_equal.
    induction Hall as [|f fs Hf _ IH]; [done |].
    apply Forall_cons in Htri as [Hlen Htri]. simpl. rewrite (IH Htri).
    f_equal. destruct f as [|a [|b [|c [|? ?]]]]; try done.
    apply face_in_mask_triangle. rewrite !Forall_cons in Hf. tauto.
  - intros Hsub. eexists _, _. split; [done |]. split; [done |].
    apply Forall2_fmap, Forall_Forall2_diag.
    eapply Forall_impl; [exact Htri |]. intros f Hlen.
    destruct f as [|a [|b [|c [|? ?]]]]; try done.
    rewrite !face_in_mask_triangle. intros (Ha & Hb & Hc).
    repeat split; by apply Hsub.
Qed.
End face_mask_order.

Lemma reduced_faces_order_witness :
  Texture_Renderer.reduced_faces (Some {[0; 1; 2; 3]}%Z)
    [[0; 1; 2]; [0; 2; 3]]%Z = Some [true; true].
Proof.
  refine (proj1 (proj2 (reduced_faces_order {[0; 1; 2; 3]}%Z ∅
                          [[0; 1; 2]; [0; 2; 3]]%Z _)) _).
  - by repeat constructor.
  - repeat constructor; set_solver.
Defined.

(** ** [Point_Renderer.forward]: the state it leaves *)

Section point_forward_state.
Context `{Library}.
Import Point_Renderer.

Lemma subsample_state pts self m :
  (subsample pts (self, m)).2
  = (self, Machine _ (heap m) (randperm (shape1 pts) (gen m)).2).
Proof.
  unfold subsample, draw_randperm. by destruct (randperm _ _).
Qed.

Lemma append_ex_points_state ex verts s :
  (append_ex_points ex verts s).2 = s.
Proof.
  destruct ex as [e|]; simpl; [|done].
  rewrite bind_run. unfold lift_result. by destruct (expand _ _).
Qed.

(** Building the points of the cloud draws one permutation and nothing
    else, whether it returns or raises. *)
Lemma build_verts_state pts coords ex self m :
  (build_verts pts coords ex (self, m)).2
  = (self, Machine _ (heap m) (randperm (shape1 pts) (gen m)).2).
Proof.
  unfold build_verts. rewrite bind_run.
  pose proof (subsample_state pts self m) as Hs.
  destruct (subsample pts (self, m)) as [[subs|e] s1]; simpl in Hs; subst s1;
    [|done].
  rewrite bind_run.
  pose proof (append_ex_points_state ex subs
                (self, Machine _ (heap m) (randperm (shape1 pts) (gen m)).2))
    as Ha.
  by destruct (append_ex_points ex subs _) as [[v|e] s2]; simpl in Ha; subst s2.
Qed.

Lemma expand_mismatch {A} (b : nat) (t : list (list A)) :
  length t ≠ 1 → length t ≠ b →
  expand b t = Raise (RuntimeError "expand: size mismatch at dimension 0").
Proof.
  intros H1 Hb. unfold expand. destruct t as [|r [|r' t]]; try done;
    by rewrite decide_False.
Qed.

(** X9. A call whose extra points cannot be broadcast to the batch (their
    batch size is neither 1 nor that of the points) raises
    [RuntimeError], and it does so after the camera step and the drawing
    of the permutation: the field [cameras] is already rebound for a view
    other than the sentinel, and the generator has advanced by one
    permutation and by no colour. *)
Theorem forward_raises_after_rebuild `{!LibrarySpec} pts D E A coords ex
    self m :
  rectangular pts →
  length ex ≠ 1 → length ex ≠ length pts →
  let r := forward pts D E A coords (Some ex) (self, m) in
  let s1 := (update_cameras D E A (self, m)).2 in
  (∃ msg, r.1 = Raise (RuntimeError msg))
  ∧ r.2.1 = s1.1
  ∧ heap r.2.2 = heap s1.2
  ∧ gen r.2.2 = (randperm (shape1 pts) (gen m)).2
  ∧ (¬ sentinel_view D E A → cameras r.2.1 ∉ dom (heap m)).
Proof.
  intros Hrect H1 HB r s1.
  destruct (update_cameras_gen D E A self m) as (Hgen & _ & _). fold s1 in Hgen.
  assert (r = (Raise (RuntimeError "expand: size mismatch at dimension 0"),
               (s1.1, Machine _ (heap s1.2)
                        (randperm (shape1 pts) (gen m)).2))) as ->.
  { subst r. unfold forward. rewrite bind_run.
    pose proof (update_cameras_Ok D E A (self, m)) as Hu. fold s1 in Hu.
    subst s1. destruct (update_cameras D E A (self, m)) as [u [self1 m1]].
    simpl in Hu, Hgen. subst u. simpl.
    rewrite bind_run, build_cloud_run.
    pose proof (build_verts_state pts coords (Some ex) self1 m1) as Hst.
    unfold build_verts in *. rewrite bind_run in *.
    destruct (subsample_run pts self1 m1 Hrect) as (subs & m' & Hsub & _ & Hsel).
    rewrite Hsub in *. rewrite bind_run in *. simpl in *.
    rewrite bind_run in *. unfold lift_result in *.
    rewrite expand_mismatch in *;
      try (unfold shape0; rewrite <- (Forall2_length _ _ _ Hsel)); try done.
    simpl in *. by rewrite Hst, Hgen. }
  simpl. split; [eauto |]. repeat (split; [done |]).
  intros Hv%view_differs_true.
  destruct (update_cameras_store D E A self m) as [_ Hrebuild].
  destruct (Hrebuild Hv) as (Hc & _). fold s1 in Hc. rewrite Hc. apply is_fresh.
Qed.

(** X10. The rasterizer inside the renderer of an instance keeps
    referring to the camera object of view (4, 30, 30) the constructor
    built: no call rebinds it, although a call with a view other than the
    sentinel rebinds the field [cameras] of the instance, which then
    refers to another object than the rasterizer does. *)
Theorem rasterizer_camera_stale image_size dev m0 s :
  reachable (init image_size dev m0) s →
  let c0 := pr_cameras (rasterizer (renderer s.1)) in
  c0 = cameras (init image_size dev m0).1
  ∧ heap s.2 !! c0 = Some (view_camera dev 4 30 30)
  ∧ ∀ pts D E A coords ex,
      ¬ sentinel_view D E A →
      let s' := (forward pts D E A coords ex s).2 in
      pr_cameras (rasterizer (renderer s'.1)) = c0
      ∧ cameras s'.1 ≠ pr_cameras (rasterizer (renderer s'.1)).
Proof.
  intros Hs c0.
  destruct (reachable_invariant image_size dev m0 s Hs) as (_ & Hrend & Hc0 & _).
  assert (c0 = cameras (init image_size dev m0).1) as Hc0eq.
  { subst c0. by rewrite Hrend. }
  split; [done |]. split; [by rewrite Hc0eq |].
  intros pts D E A coords ex Hv s'.
  assert (reachable (init image_size dev m0) s') as Hs'
    by by apply reachable_forward.
  destruct (reachable_invariant image_size dev m0 s' Hs') as (_ & Hrend' & _ & _).
  rewrite Hrend', <- Hrend. split; [done |]. fold c0.
  destruct s as [self m]. simpl in Hc0.
  pose proof (forward_after_update pts D E A coords ex (self, m)) as [Hself _].
  fold s' in Hself.
  destruct (update_cameras_store D E A self m) as [_ Hrebuild].
  apply view_differs_true in Hv. destruct (Hrebuild Hv) as (Hc & _).
  rewrite Hself, Hc. intros Heq.
  apply (is_fresh (dom (heap m))). rewrite Heq, Hc0eq.
  apply elem_of_dom. eauto.
Qed.

(** X11. The sentinel view keeps the camera of the previous call.  On an
    instance as the constructor leaves it, a call with the view
    (8, 30, 30) renders with the constructor's camera of view
    (4, 30, 30); after a call with another view (D, E, A), a call with
    the view (8, 30, 30) renders with the camera of view (D, E, A). *)
Theorem sentinel_renders_previous_view image_size dev m0 s pts coords ex
    pts' coords' ex' D E A :
  reachable (init image_size dev m0) s →
  ¬ sentinel_view D E A →
  forward pts 8 30 30 coords ex (init image_size dev m0)
  = forward_tail pts coords ex (view_camera dev 4 30 30)
      (init image_size dev m0)
  ∧ let s1 := (forward pts D E A coords ex s).2 in
    forward pts' 8 30 30 coords' ex' s1
    = forward_tail pts' coords' ex' (view_camera dev D E A) s1.
Proof.
  intros Hs Hv.
  assert (view_differs 8 30 30 = false) as H8 by reflexivity.
  split.
  - rewrite (forward_renders_with pts 8 30 30 coords ex _
               (view_camera dev 4 30 30)).
    + destruct (init image_size dev m0) as [self m].
      by rewrite update_cameras_reuse.
    + destruct (init image_size dev m0) as [self m] eqn:Hinit.
      rewrite update_cameras_reuse by done. simpl.
      unfold init, alloc in Hinit. injection Hinit as <- <-. simpl.
      apply lookup_insert_eq.
  - intros s1.
    destruct (reachable_invariant image_size dev m0 s Hs) as (Hdev & _ & _ & _).
    destruct s as [self m]. simpl in Hdev.
    pose proof (forward_after_update pts D E A coords ex (self, m))
      as [Hself Hheap].
    fold s1 in Hself, Hheap.
    destruct (update_cameras_store D E A self m) as [_ Hrebuild].
    apply view_differs_true in Hv. destruct (Hrebuild Hv) as (Hc & _ & _ & Hm).
    rewrite (forward_renders_with pts' 8 30 30 coords' ex' s1
               (view_camera dev D E A)).
    + destruct s1 as [self1 m1]. by rewrite update_cameras_reuse.
    + destruct s1 as [self1 m1]. rewrite update_cameras_reuse by done.
      simpl in *. rewrite Hheap, Hself, Hm, Hdev. apply lookup_insert_eq.
Qed.
End point_forward_state.

Lemma forward_raises_after_rebuild_witness :
  let s := @Point_Renderer.init Double.library 2 "cpu" Double.boot in
  let r := @Point_Renderer.forward Double.library Samples.triangle 3 15 30 true
             (Some []) s in
  (∃ msg, r.1 = Raise (RuntimeError msg))
  ∧ Point_Renderer.cameras r.2.1 ∉ dom (heap s.2).
Proof.
  intros s.
  destruct (@forward_raises_after_rebuild Double.library DoubleSpec.spec
              Samples.triangle 3 15 30 true [] s.1 s.2)
    as (Hmsg & _ & _ & _ & Hfresh).
  { by repeat constructor. }
  { done. }
  { done. }
  split; [exact Hmsg |]. apply Hfresh. by apply view_differs_true.
Defined.

Lemma rasterizer_camera_stale_witness :
  let s := @Point_Renderer.init Double.library 2 "cpu" Double.boot in
  let s' := (@Point_Renderer.forward_default Double.library Samples.triangle s).2 in
  Point_Renderer.cameras s'.1
  ≠ pr_cameras (rasterizer (Point_Renderer.renderer s'.1)).
Proof.
  intros s.
  destruct (@rasterizer_camera_stale Double.library 2 "cpu" Double.boot s
              (reachable_init _)) as (_ & _ & Hcall).
  apply (Hcall Samples.triangle 3%Q 15%Q 30%Q true None).
  by apply view_differs_true.
Defined.

Lemma sentinel_renders_previous_view_witness :
  let s := @Point_Renderer.init Double.library 2 "cpu" Double.boot in
  @Point_Renderer.forward Double.library Samples.triangle 8 30 30 true None s
  = @forward_tail Double.library Samples.triangle true None
      (@Point_Renderer.view_camera Double.library "cpu" 4 30 30) s.
Proof.
  intros s.
  refine (proj1 (@sentinel_renders_previous_view Double.library 2 "cpu"
                   Double.boot s Samples.triangle true None Samples.triangle
                   true None 3 15 30 (reachable_init _) _)).
  by apply view_differs_true.
Defined.

(** ** [Point_Renderer.forward]: the random draws *)

Section point_draws.
Context `{Library}.
Import Point_Renderer.

Lemma after_draws_S n g : after_draws (S n) g = after_draws n (rand g).2.
Proof. unfold after_draws. by rewrite Nat.iter_succ_r. Qed.

Lemma after_draws_add a b g :
  after_draws (a + b) g = after_draws b (after_draws a g).
Proof.
  revert g. induction a as [|a IH]; intros g; [reflexivity |].
  change (S a + b) with (S (a + b)). by rewrite !after_draws_S, IH.
Qed.

Lemma draw_point_gen g : (draw_point g).2 = after_draws 3 g.
Proof.
  unfold draw_point. rewrite !after_draws_S.
  destruct (rand g) as [x g1]. simpl. destruct (rand g1) as [y g2]. simpl.
  destruct (rand g2) as [z g3]. reflexivity.
Qed.

Lemma draw_row_spec {A} (row : list A) g :
  length (draw_row row g).1 = length row
  ∧ (draw_row row g).2 = after_draws (3 * length row) g.
Proof.
  revert g. induction row as [|a row IH]; intros g; [done |].
  cbn [draw_row]. pose proof (draw_point_gen g) as Hp.
  destruct (draw_point g) as [p g1]. destruct (IH g1) as [Hlen Hgen].
  destruct (draw_row row g1) as [ps g2]. cbn [fst snd length] in *.
  split; [by rewrite Hlen |].
  replace (3 * S (length row)) with (3 + 3 * length row) by lia.
  by rewrite after_draws_add, <- Hp.
Qed.

Lemma draw_rows_spec {A} (rows : list (list A)) g :
  Forall2 (λ r c, length r = length c) rows (draw_rows rows g).1
  ∧ (draw_rows rows g).2 = after_draws (3 * count_rows rows) g.
Proof.
  revert g. induction rows as [|r rows IH]; intros g; [by split; constructor |].
  cbn [draw_rows]. destruct (draw_row_spec r g) as [Hlen Hgen].
  destruct (draw_row r g) as [c g1]. destruct (IH g1) as [Hshape Hgen'].
  destruct (draw_rows rows g1) as [cs g2]. cbn [fst snd] in *.
  split; [by constructor |].
  unfold count_rows in *. rewrite fmap_cons. cbn [sum_list sum_list_with].
  replace (3 * (length r + sum_list (length <$> rows)))
    with (3 * length r + 3 * sum_list (length <$> rows)) by lia.
  by rewrite after_draws_add, <- Hgen.
Qed.

Lemma rand_half_open `{!LibrarySpec} g : half_open_unit (rand g).1.
Proof. apply rand_unit. Qed.

Lemma draw_rows_half_open `{!LibrarySpec} {A} (rows : list (list A)) g :
  cloud_Forall half_open_unit (draw_rows rows g).1.
Proof.
  revert g. induction rows as [|r rows IH]; intros g; simpl; [constructor |].
  assert (∀ g, Forall (point_Forall half_open_unit) (draw_row r g).1) as Hrow.
  { clear IH g. induction r as [|a r IHr]; intros g; simpl; [constructor |].
    unfold draw_point.
    pose proof (rand_half_open g). destruct (rand g) as [x g1].
    pose proof (rand_half_open g1). destruct (rand g1) as [y g2].
    pose proof (rand_half_open g2). destruct (rand g2) as [z g3].
    specialize (IHr g3). destruct (draw_row r g3) as [ps g4]. simpl in *.
    constructor; [|done]. split; [|split]; assumption. }
  specialize (Hrow g). destruct (draw_row r g) as [c g1].
  specialize (IH g1). destruct (draw_rows rows g1) as [cs g2].
  by constructor.
Qed.

(** X12. Every point of the cloud gets one colour of three components
    drawn from [[0, 1)], and a call consumes one permutation and exactly
    three draws of [rand] for each point of the cloud, in this order. *)
Theorem colours_per_point `{!LibrarySpec} pts coords ex s pc s' :
  build_cloud pts coords ex s = (Ok pc, s') →
  Forall2 (λ r c, length r = length c) (points pc) (features pc)
  ∧ cloud_Forall half_open_unit (features pc)
  ∧ gen s'.2
    = after_draws (3 * count_rows (points pc))
        (randperm (shape1 pts) (gen s.2)).2.
Proof.
  rewrite build_cloud_run. destruct s as [self m].
  pose proof (build_verts_state pts coords ex self m) as Hst.
  destruct (build_verts pts coords ex (self, m)) as [[verts|e] s1]; [|done].
  simpl in Hst. subst s1. intros [= <- <-]. simpl. unfold rand_like. simpl.
  pose proof (draw_rows_spec verts (randperm (shape1 pts) (gen m)).2)
    as [Hshape Hgen].
  pose proof (draw_rows_half_open verts (randperm (shape1 pts) (gen m)).2)
    as Hunit.
  by destruct (draw_rows verts _) as [rgb g].
Qed.

Lemma build_verts_gen_only pts coords ex s s' :
  gen s.2 = gen s'.2 →
  (build_verts pts coords ex s).1 = (build_verts pts coords ex s').1.
Proof.
  destruct s as [self m], s' as [self' m']. simpl. intros Hgen.
  unfold build_verts. rewrite !bind_run.
  pose proof (subsample_state pts self m) as Hs.
  pose proof (subsample_state pts self' m') as Hs'.
  assert ((subsample pts (self, m)).1 = (subsample pts (self', m')).1) as Hr.
  { unfold subsample, draw_randperm. rewrite Hgen.
    by destruct (randperm (shape1 pts) (gen m')). }
  destruct (subsample pts (self, m)) as [r1 s1],
    (subsample pts (self', m')) as [r2 s2].
  simpl in *. subst r2 s1 s2. destruct r1 as [subs|e]; [|done].
  rewrite !bind_run.
  destruct ex as [e|]; simpl; [|done].
  rewrite !bind_run. unfold lift_result. by destruct (expand _ _).
Qed.

(** X13. The cloud a call builds, its sample and its colours, and the
    state the generator is left in depend on the points, the flags and
    the generator state only: not on the view (D, E, A), not on the
    instance and not on the camera objects. *)
Theorem cloud_independent_of_view pts coords ex s D E A D' E' A' :
  (build_cloud pts coords ex (update_cameras D E A s).2).1
  = (build_cloud pts coords ex (update_cameras D' E' A' s).2).1
  ∧ gen (forward pts D E A coords ex s).2.2
    = gen (forward pts D' E' A' coords ex s).2.2
  ∧ ∀ s', gen s'.2 = gen s.2 →
      (build_cloud pts coords ex s').1 = (build_cloud pts coords ex s).1.
Proof.
  assert (∀ s1 s2, gen s1.2 = gen s2.2 →
            (build_cloud pts coords ex s1).1 = (build_cloud pts coords ex s2).1
            ∧ gen (build_cloud pts coords ex s1).2.2
              = gen (build_cloud pts coords ex s2).2.2) as Hgen.
  { intros [self1 m1] [self2 m2] Hg. simpl in Hg. rewrite !build_cloud_run.
    pose proof (build_verts_gen_only pts coords ex (self1, m1) (self2, m2) Hg)
      as Hv.
    pose proof (build_verts_state pts coords ex self1 m1) as H1.
    pose proof (build_verts_state pts coords ex self2 m2) as H2.
    destruct (build_verts pts coords ex (self1, m1)) as [r1 t1],
      (build_verts pts coords ex (self2, m2)) as [r2 t2].
    simpl in *. subst r2 t1 t2. rewrite Hg.
    destruct r1 as [verts|e]; simpl; [|done].
    unfold rand_like. simpl. by destruct (draw_rows verts _). }
  assert (∀ D E A, gen (update_cameras D E A s).2.2 = gen s.2) as Hupd.
  { intros D0 E0 A0. destruct s as [self m].
    unfold update_cameras, alloc. by destruct (view_differs D0 E0 A0). }
  assert (∀ D E A,
            gen (forward pts D E A coords ex s).2.2
            = gen (build_cloud pts coords ex (update_cameras D E A s).2).2.2)
    as Hfwd.
  { intros D0 E0 A0. unfold forward. rewrite bind_run.
    pose proof (update_cameras_Ok D0 E0 A0 s) as Hu.
    destruct (update_cameras D0 E0 A0 s) as [u s1]. simpl in Hu. subst u.
    simpl. rewrite bind_run.
    destruct (build_cloud pts coords ex s1) as [[pc|e] [self2 m2]]; [|done].
    rewrite bind_run. unfold render. simpl.
    destruct (heap m2 !! cameras self2); [|done].
    by destruct (call _). }
  split; [|split].
  - apply Hgen. by rewrite !Hupd.
  - rewrite !Hfwd. apply Hgen. by rewrite !Hupd.
  - intros s' Hg. by apply Hgen.
Qed.
End point_draws.

Lemma colours_per_point_witness :
  let s := @Point_Renderer.init Double.library 2 "cpu" Double.boot in
  ∃ pc s',
    @Point_Renderer.build_cloud Double.library Samples.triangle true None s
    = (Ok pc, s')
    ∧ gen s'.2 = @after_draws Double.library 9 (gen s.2 + 1).
Proof.
  intros s.
  destruct (@Point_Renderer.build_cloud Double.library Samples.triangle true
              None s) as [[pc|e] s'] eqn:Hpc;
    [|vm_compute in Hpc; discriminate Hpc].
  exists pc, s'. split; [done |].
  destruct (@colours_per_point Double.library DoubleSpec.spec _ _ _ _ _ _ Hpc)
    as (_ & _ & Hgen).
  rewrite Hgen. vm_compute in Hpc. by injection Hpc as <- <-.
Defined.

(** ** The subsample *)

Lemma selection_omap {A} (idx : list nat) (src sub : list A) :
  Forall2 (λ i x, src !! i = Some x) idx sub → sub = omap (λ i, src !! i) idx.
Proof.
  induction 1 as [|i x idx sub Hx _ IH]; [done |].
  cbn [omap list_omap]. by rewrite Hx, <- IH.
Qed.

Lemma omap_lookup_seq {A} (pre src : list A) :
  omap (λ i, (pre ++ src) !! i) (seq (length pre) (length src)) = src.
Proof.
  revert pre. induction src as [|x src IH]; intros pre; [done |].
  cbn [length seq omap list_omap].
  rewrite list_lookup_middle by done. f_equal.
  specialize (IH (pre ++ [x])). rewrite length_app, Nat.add_1_r in IH.
  by rewrite <- app_assoc in IH.
Qed.

Section subsample_multiset.
Context `{Library} `{!LibrarySpec}.
Import Point_Renderer.

(** X14. The subsample neither invents nor repeats a point: the sample of
    a batch element holds [min(10000, N)] of its points, each taken from
    a different place, so it is a sub-multiset of the element, and for
    [N ≤ 10000] it is a permutation of the element: the call shuffles the
    points and drops none. *)
Theorem subsample_multiset pts coords ex self m :
  rectangular pts →
  broadcasts ex (length pts) →
  ∃ verts m',
    build_verts pts coords ex (self, m) = (Ok verts, (self, m'))
    ∧ ∀ b src, pts !! b = Some src →
        ∃ sub rest,
          verts !! b = Some (sub ++ rest)
          ∧ length sub = Nat.min max_points (length src)
          ∧ sub ⊆+ src
          ∧ (length src ≤ max_points → sub ≡ₚ src).
Proof.
  intros Hrect Hex.
  destruct (build_verts_run pts coords ex self m Hrect Hex)
    as (verts & m' & Hverts & _ & _ & Hrows).
  exists verts, m'. split; [done |]. intros b src Hsrc.
  destruct (Hrows b src Hsrc) as (sub & e & Hsel & _ & _ & Hrow).
  exists sub, (e ++ if coords then axis_points
      ((Nat.min max_points (shape1 pts) + extra_count ex) / 10) else []).
  split; [done |].
  assert (length src = shape1 pts) as Hlen.
  { eapply Forall_lookup_1 in Hrect; [|exact Hsrc]. done. }
  destruct (sample_indices_spec pts m) as (Hn & _ & _).
  split; [by rewrite <- (Forall2_length _ _ _ Hsel), Hn, Hlen |].
  apply selection_omap in Hsel. unfold sample_indices in Hsel.
  pose proof (randperm_permutation (shape1 pts) (gen m)) as Hperm.
  set (perm := (randperm (shape1 pts) (gen m)).1) in *.
  assert (omap (λ i, src !! i) perm ≡ₚ src) as Hall.
  { rewrite Hperm, <- Hlen.
    pose proof (omap_lookup_seq [] src) as Hseq. simpl in Hseq.
    by rewrite Hseq. }
  split.
  - rewrite <- Hall, <- (take_drop max_points perm), omap_app, <- Hsel.
    by apply submseteq_inserts_r.
  - intros Hle. rewrite Hsel, take_ge; [done |].
    rewrite Hperm, length_seq. lia.
Qed.
End subsample_multiset.

Lemma subsample_multiset_witness :
  let s := @Point_Renderer.init Double.library 2 "cpu" Double.boot in
  ∃ verts sub rest,
    (@Point_Renderer.build_verts Double.library Samples.line false None s).1
    = Ok verts
    ∧ verts !! 0 = Some (sub ++ rest) ∧ length sub = 25.
Proof.
  intros s.
  destruct (@subsample_multiset Double.library DoubleSpec.spec Samples.line
              false None s.1 s.2) as (verts & m' & Hverts & Hrows).
  { by repeat constructor. }
  { done. }
  destruct (Hrows 0 _ eq_refl) as (sub & rest & Hrow & Hlen & _).
  exists verts, sub, rest. split; [|done].
  change s with (s.1, s.2). by rewrite Hverts.
Defined.

(** ** The reference axes of small and large clouds *)

Lemma even_step_first n : (even_step n 0 == 0)%Q.
Proof. unfold even_step. simpl. unfold Qdiv. by rewrite Qmult_0_l. Qed.

Lemma even_step_last n : 2 ≤ n → (even_step n (n - 1) == 1)%Q.
Proof.
  intros Hn. unfold even_step, Qdiv. apply Qmult_inv_r.
  intros Heq. assert (0 < inject_Z (Z.of_nat (n - 1)))%Q as Hpos.
  { change 0%Q with (inject_Z 0). rewrite <- Zlt_Qlt. lia. }
  rewrite Heq in Hpos. by apply Qlt_irrefl in Hpos.
Qed.

Section axes_edges.
Context `{Library}.
Import Point_Renderer.

(** X15. The reference axes by the size [K] of the cloud they are
    appended to.  For [K < 10] nothing is appended; for [10 ≤ K < 20] the
    three axes are one point each, the origin three times; for [K ≥ 20]
    the first axis runs from the origin to (1, 0, 0). *)
Theorem coords_by_cloud_size (verts : list (list (Q * Q * Q))) (k : nat) :
  Forall (λ r, length r = k) verts →
  (k < 10 → append_coords true verts = verts)
  ∧ (10 ≤ k < 20 →
     append_coords true verts
     = map (λ r, r ++ [(0, 0, 0); (0, 0, 0); (0, 0, 0)]%Q) verts)
  ∧ (20 ≤ k →
     append_coords true verts = map (λ r, r ++ axis_points (k / 10)) verts
     ∧ ∃ x0 x1,
         axis_points (k / 10) !! 0 = Some (x0, 0, 0)%Q
         ∧ axis_points (k / 10) !! (k / 10 - 1) = Some (x1, 0, 0)%Q
         ∧ (x0 == 0)%Q ∧ (x1 == 1)%Q).
Proof.
  intros Hrows. pose proof (append_coords_rows true verts k Hrows) as Happ.
  change (append_coords true verts = map (λ r, r ++ axis_points (k / 10)) verts)
    in Happ.
  split; [|split].
  - intros Hk. rewrite Happ, Nat.div_small by done.
    change (axis_points 0) with ([] : list (Q * Q * Q)).
    clear. induction verts as [|r verts IH]; [done |].
    simpl. by rewrite app_nil_r, IH.
  - intros Hk. rewrite Happ.
    assert (k / 10 = 1) as -> by (symmetry; apply (Nat.div_unique k 10 1 (k - 10)); lia).
    done.
  - intros Hk. split; [done |].
    assert (2 ≤ k / 10) as Hn by (apply Nat.div_le_lower_bound; lia).
    set (n := k / 10) in *. unfold axis_points.
    destruct (lookup_lt_is_Some_2 (linspace 0 1 n) 0) as [x0 Hx0];
      [rewrite linspace_length; lia |].
    destruct (lookup_lt_is_Some_2 (linspace 0 1 n) (n - 1)) as [x1 Hx1];
      [rewrite linspace_length; lia |].
    exists x0, x1.
    rewrite !lookup_app_l by (rewrite length_map, linspace_length; lia).
    rewrite !list_lookup_fmap, Hx0, Hx1. split; [done |]. split; [done |].
    apply linspace_lookup in Hx0 as [_ ->]. apply linspace_lookup in Hx1 as [_ ->].
    split; [apply even_step_first | by apply even_step_last].
Qed.
End axes_edges.

Lemma coords_by_cloud_size_witness :
  Point_Renderer.append_coords true Samples.triangle = Samples.triangle.
Proof.
  refine (proj1 (@coords_by_cloud_size Double.library Samples.triangle 3 _) _).
  - by repeat constructor.
  - lia.
Defined.

(** ** [Mesh_Renderer.__init__]: the conversion to 32-bit integers *)

Lemma astype_int32_range (z : Z) : in_int32 (astype_int32 z).
Proof.
  unfold in_int32, astype_int32.
  pose proof (Z.mod_pos_bound (z + 2147483648) 4294967296). lia.
Qed.

Lemma astype_int32_id (z : Z) : in_int32 z → astype_int32 z = z.
Proof.
  unfold in_int32, astype_int32. intros Hz.
  rewrite Z.mod_small by lia. lia.
Qed.

Lemma astype_int32_wrap (z : Z) :
  ∃ k, astype_int32 z = (z + k * 4294967296)%Z.
Proof.
  unfold astype_int32. exists (- ((z + 2147483648) / 4294967296))%Z.
  pose proof (Z.div_mod (z + 2147483648) 4294967296). lia.
Qed.

Section mesh_init_int32.
Context `{Library}.
Import Mesh_Renderer.

(** X16. Constructed from a raw face array, a [Mesh_Renderer] holds the
    array with every index wrapped into the signed 32-bit range: each
    stored index is in that range and differs from the given one by a
    multiple of [2^32], and an array whose indices are all in the range
    is stored as it is. *)
Theorem init_faces_int32 image_size (fs : list (list Z)) dev :
  ∃ self,
    init image_size None (Some fs) dev = Ok self
    ∧ Forall (Forall in_int32) (faces self)
    ∧ Forall2 (Forall2 (λ z w, ∃ k, w = (z + k * 4294967296)%Z))
        fs (faces self)
    ∧ (Forall (Forall in_int32) fs → faces self = fs).
Proof.
  eexists. split; [reflexivity |]. simpl. split; [|split].
  - apply Forall_fmap, Forall_true. intros f.
    apply Forall_fmap, Forall_true. intros z. apply astype_int32_range.
  - apply Forall2_fmap_r, Forall_Forall2_diag, Forall_true. intros f.
    apply Forall2_fmap_r, Forall_Forall2_diag, Forall_true. intros z.
    apply astype_int32_wrap.
  - intros Hfs. induction Hfs as [|f fs Hf _ IH]; [done |].
    simpl. rewrite IH. f_equal.
    induction Hf as [|z f Hz _ IHf]; [done |].
    simpl. by rewrite IHf, astype_int32_id.
Qed.
End mesh_init_int32.

Lemma init_faces_int32_witness :
  ∃ self,
    @Mesh_Renderer.init Double.library 2 None (Some [[0; 1; 2]]%Z) "cpu" = Ok self
    ∧ Mesh_Renderer.faces self = [[0; 1; 2]]%Z.
Proof.
  destruct (@init_faces_int32 Double.library 2 [[0; 1; 2]]%Z "cpu")
    as (self & Hinit & _ & _ & Hid).
  exists self. split; [exact Hinit |]. apply Hid.
  repeat constructor; unfold in_int32; lia.
Defined.

Lemma cloud_independent_of_view_witness :
  let s := @Point_Renderer.init Double.library 2 "cpu" Double.boot in
  (@Point_Renderer.build_cloud Double.library Samples.triangle true None
     (s.1, @Machine Double.library ∅ (gen s.2))).1
  = (@Point_Renderer.build_cloud Double.library Samples.triangle true None s).1.
Proof.
  intros s.
  refine (proj2 (proj2 (@cloud_independent_of_view Double.library
                          Samples.triangle true None s 3 15 30 8 30 30)) _ _).
  reflexivity.
Defined.

(** ** [Mesh_Renderer.forward]: the mesh handed to the renderer *)

Section mesh_scene.
Context `{Library}.
Import Mesh_Renderer.

Lemma ones_like_shape (t : list (list (Q * Q * Q))) :
  Forall2 (λ r c, length r = length c ∧ Forall (λ p, p = (1, 1, 1)%Q) c)
    t (ones_like t).
Proof.
  unfold ones_like. apply Forall2_fmap_r, Forall_Forall2_diag, Forall_true.
  intros r. split; [by rewrite length_map |].
  apply Forall_fmap, Forall_true. done.
Qed.

(** X17. Every call of [Mesh_Renderer.forward] that returns has called
    the renderer on a mesh with the vertices of the call, the faces of
    the instance once for each batch element of the vertices, and a
    white colour for every vertex; the rasterizer and the shader of that
    renderer hold the same camera, the one given or the one built. *)
Theorem mesh_forward_scene vertices cameras tm fl pp self m images alpha :
  (forward vertices cameras tm fl pp (self, m)).1 = Ok (images, alpha) →
  ∃ cam renderer mesh raw colours,
    mesh_camera self cameras tm fl pp = Ok cam
    ∧ MeshRenderer_call renderer mesh = Returns raw
    ∧ mesh_verts mesh = vertices
    ∧ mesh_faces mesh = replicate (length vertices) (faces self)
    ∧ mesh_textures mesh = TexturesVertex colours
    ∧ Forall2 (λ r c, length r = length c ∧ Forall (λ p, p = (1, 1, 1)%Q) c)
        vertices colours
    ∧ mr_cameras (mesh_rasterizer renderer) = cam
    ∧ mesh_shader renderer = SoftPhongShader (device self) cam (lights self)
    ∧ (∀ c, cameras = Some c → cam = c).
Proof.
  intros (cam & raw & Hcam & Hraw & _ & _)%mesh_forward_Ok.
  exists cam, (scene self vertices cam).1, (scene self vertices cam).2, raw,
    (ones_like vertices).
  split; [done |]. split; [done |]. simpl.
  repeat (split; [done |]). split; [apply ones_like_shape |].
  repeat (split; [done |]). intros c ->. simpl in Hcam. by injection Hcam.
Qed.
End mesh_scene.

Lemma mesh_forward_scene_witness :
  ∃ self cam,
    @Mesh_Renderer.init Double.library 2 None (Some [[0; 1; 2]]%Z) "cpu"
      = Ok self
    ∧ mesh_camera self None (Some [Samples.identity4]) (Some [[1; 1]]%Q)
        (Some [[0; 0]]%Q) = Ok cam.
Proof.
  destruct (@Mesh_Renderer.init Double.library 2 None (Some [[0; 1; 2]]%Z) "cpu")
    as [self|e] eqn:Hinit; [|discriminate Hinit].
  destruct (@Mesh_Renderer.forward Double.library Samples.triangle None
              (Some [Samples.identity4]) (Some [[1; 1]]%Q) (Some [[0; 0]]%Q)
              (self, Double.boot)).1 as [[images alpha]|e] eqn:Hf.
  - destruct (@mesh_forward_scene Double.library _ _ _ _ _ _ _ _ _ Hf)
      as (cam & _ & _ & _ & _ & Hcam & _).
    by exists self, cam.
  - vm_compute in Hinit. injection Hinit as <-. vm_compute in Hf.
    discriminate Hf.
Defined.
